(** * Output inference and conversion of the Terrakube Terraform provider

    A shallow embedding of [inferAttrType], [convertToAttrValue] and of the
    output walk of [OutputDataSource.Read]
    (internal/provider/workspace_data_source.go), together with the parts of
    terraform-plugin-framework ([attr], [diag], [types]/[basetypes]) that
    these functions call; and of the [Read], [ReadDataFromApi] and
    [Metadata] methods of the workspace, output and team data sources
    (internal/provider/workspace_data_source.go and team_data_source.go).

    - Go maps are [gmap string _]: lookups, inserts and key sets are those
      of the Go map, and a [range] over a map is [map_fold], one of the
      iteration orders Go may pick.
    - A value of an interface type is a value of an inductive type with one
      constructor per dynamic type.  The nil [attr.Value] is
      [basetypes.nil]; a nil [attr.Type] only arises in [Read], which keeps
      the type that [inferAttrType] returns next to an error, and is [None]
      there.
    - A method call on a nil interface is a panic; a call that may panic
      has an [outcome].
    - Loops are folds over the slice or map they range over; the body says
      whether the loop goes on, breaks, or leaves the function.
    - The network, and the libraries that decode its answers, are an
      [environment]: functions from a URL or from the bytes of an answer to
      what the code gets back. *)

From Stdlib Require Import QArith.Qcanon.
From stdpp Require Import gmap strings list fin_maps.

#[local] Set Warnings "-register-all".
#[local] Open Scope string_scope.

(** ** Decoded values: Go's [interface{}] *)

(** The numeric dynamic types that [inferAttrType] lists in one [case]. *)
Inductive num_kind : Type :=
  | Int | Int8 | Int16 | Int32 | Int64 | Float32 | Float64.

(** A value of type [interface{}].  [go_other T] stands for a value of any
    dynamic type that no [case] names; [T] is what [%T] prints for it.
    Numbers carry their (finite) value as a rational; [encoding/json] decodes
    every JSON number into [go_num Float64]. *)
Inductive interface : Type :=
  | go_nil
  | go_bool (b : bool)
  | go_num (k : num_kind) (n : Qc)
  | go_string (s : string)
  | go_slice (v : list interface)
  | go_map (v : gmap string interface)
  | go_other (T : string).

(** ** Type descriptors: the implementations of [attr.Type] *)

(** [OtherType T] stands for any implementation of [attr.Type] that
    [convertToAttrValue] has no branch for (sets, the sized number types,
    provider-defined types); [T] is what [%T] prints for it. *)
Inductive attr_Type : Type :=
  | BoolType
  | NumberType
  | StringType
  | DynamicType
  | ListType (ElemType : attr_Type)
  | TupleType (ElemTypes : list attr_Type)
  | ObjectType (AttrTypes : gmap string attr_Type)
  | MapType (ElemType : attr_Type)
  | OtherType (T : string).

(** ** Control flow *)

(** A Go call either panics or returns. *)
Inductive outcome (A : Type) : Type :=
  | Panic
  | Return (a : A).
Arguments Panic {A}.
Arguments Return {A} a.

(** What one run of a loop body does: go on with the next iteration, [break]
    out of the loop, or leave the enclosing function ([return], or a panic
    when [R] is an [outcome]).  [Next] and [Break] carry the variables the
    loop assigns. *)
Inductive flow (S R : Type) : Type :=
  | Next (s : S)
  | Break (s : S)
  | Exit (r : R).
Arguments Next {S R} s.
Arguments Break {S R} s.
Arguments Exit {S R} r.

(** How a loop ends: past its last iteration or by [break], with the
    variables it assigned, or by leaving the enclosing function. *)
Inductive ended (S R : Type) : Type :=
  | Done (s : S)
  | Left (r : R).
Arguments Done {S R} s.
Arguments Left {S R} r.

Section ranges.
Context {A B S R : Type}.

Section slice.
Variable body : nat → A → S → flow S R.

(** [for i, a := range l { body }], counting from [i]. *)
Fixpoint range_from (i : nat) (l : list A) (s : S) : ended S R :=
  match l with
  | [] => Done s
  | a :: l' =>
      match body i a s with
      | Next s' => range_from (Datatypes.S i) l' s'
      | Break s' => Done s'
      | Exit r => Left r
      end
  end.
End slice.

Section slice2.
Variable body : nat → A → B → S → flow S R.
Variable out_of_range : R.

(** [for i, a := range l { ... ts[i] ... }]: the loop reads [ts[i]] next
    to [l[i]]; an index past the end of [ts] is [out_of_range]. *)
Fixpoint range_from2 (i : nat) (l : list A) (ts : list B) (s : S)
    {struct ts} : ended S R :=
  match ts, l with
  | _, [] => Done s
  | [], _ :: _ => Left out_of_range
  | t :: ts', a :: l' =>
      match body i a t s with
      | Next s' => range_from2 (Datatypes.S i) l' ts' s'
      | Break s' => Done s'
      | Exit r => Left r
      end
  end.
End slice2.

(** [for k, a := range m { body }] *)
Definition range_map (body : string → A → S → flow S R)
    (m : gmap string A) (s : S) : ended S R :=
  match
    map_fold (λ k a acc,
      match acc with
      | Next s' => body k a s'
      | Break s' => Break s'
      | Exit r => Exit r
      end) (Next s) m
  with
  | Next s' | Break s' => Done s'
  | Exit r => Left r
  end.
End ranges.

Section forall2b.
Context {A B : Type} (f : A → B → bool).

(** Two slices have one length and [f] holds at every index. *)
Fixpoint forall2b (l : list A) (k : list B) : bool :=
  match l, k with
  | [], [] => true
  | a :: l', b :: k' => f a b && forall2b l' k'
  | _, _ => false
  end.
End forall2b.

(** ** Equality of type descriptors *)

(** The [Equal] methods of the framework's types: the same implementation,
    and for a list or map equal element types, for a tuple the same number
    of pairwise equal element types, for an object the same number of
    attributes and, for every attribute name, an equal type under that name
    in the other. *)
Fixpoint Equal (t o : attr_Type) {struct t} : bool :=
  match t, o with
  | BoolType, BoolType => true
  | NumberType, NumberType => true
  | StringType, StringType => true
  | DynamicType, DynamicType => true
  | ListType ElemType, ListType other => Equal ElemType other
  | TupleType ElemTypes, TupleType other => forall2b Equal ElemTypes other
  | ObjectType AttrTypes, ObjectType other =>
      (size other =? size AttrTypes)%nat &&
      map_fold (λ k v acc,
        acc && match other !! k with
               | Some a => Equal v a
               | None => false
               end) true AttrTypes
  | MapType ElemType, MapType other => Equal ElemType other
  | OtherType T, OtherType T' => String.eqb T T'
  | _, _ => false
  end.

(** [reflect.DeepEqual] on two type descriptors: the same dynamic type and
    deeply equal fields (slices of one length, equal at every index; maps of
    one length, equal under every key), which is the comparison [Equal]
    makes. *)
Definition DeepEqual (x y : attr_Type) : bool := Equal x y.

(** What [%T] prints for a type descriptor. *)
Definition type_name (t : attr_Type) : string :=
  match t with
  | BoolType => "basetypes.BoolType"
  | NumberType => "basetypes.NumberType"
  | StringType => "basetypes.StringType"
  | DynamicType => "basetypes.DynamicType"
  | ListType _ => "basetypes.ListType"
  | TupleType _ => "basetypes.TupleType"
  | ObjectType _ => "basetypes.ObjectType"
  | MapType _ => "basetypes.MapType"
  | OtherType T => T
  end.

(** ** Diagnostics *)

Module diag.

Inductive Severity : Type :=
  | SeverityInvalid
  | SeverityError
  | SeverityWarning.

(** The detail text of a diagnostic.  The texts written in
    workspace_data_source.go are kept as they are; the framework's own
    texts, which print the types involved, are kept as the data they
    print. *)
Inductive Detail : Type :=
  | Text (s : string)
  | ListElementType (elementType : attr_Type) (idx : nat) (got : attr_Type)
  | TupleElements (elementTypes given : list attr_Type)
  | TupleElementType (idx : nat) (expected got : attr_Type)
  | MissingAttribute (name : string)
  | AttributeType (name : string) (expected got : attr_Type)
  | ExtraAttribute (name : string)
  | MapElementType (elementType : attr_Type) (key : string) (got : attr_Type).

Record Diagnostic : Type := NewDiagnostic {
  severity : Severity;
  summary : string;
  detail : Detail
}.

Abbreviation Diagnostics := (list Diagnostic).

Definition NewErrorDiagnostic (summary : string) (detail : Detail) : Diagnostic :=
  NewDiagnostic SeverityError summary detail.

Definition Severity_eqb (a b : Severity) : bool :=
  match a, b with
  | SeverityInvalid, SeverityInvalid => true
  | SeverityError, SeverityError => true
  | SeverityWarning, SeverityWarning => true
  | _, _ => false
  end.

Definition Detail_eqb (a b : Detail) : bool :=
  match a, b with
  | Text s, Text s' => String.eqb s s'
  | ListElementType t i g, ListElementType t' i' g' =>
      Equal t t' && (i =? i')%nat && Equal g g'
  | TupleElements ts gs, TupleElements ts' gs' =>
      forall2b Equal ts ts' && forall2b Equal gs gs'
  | TupleElementType i t g, TupleElementType i' t' g' =>
      (i =? i')%nat && Equal t t' && Equal g g'
  | MissingAttribute n, MissingAttribute n' => String.eqb n n'
  | AttributeType n t g, AttributeType n' t' g' =>
      String.eqb n n' && Equal t t' && Equal g g'
  | ExtraAttribute n, ExtraAttribute n' => String.eqb n n'
  | MapElementType t k g, MapElementType t' k' g' =>
      Equal t t' && String.eqb k k' && Equal g g'
  | _, _ => false
  end.

(** [Diagnostic.Equal]: the same severity, summary and detail. *)
Definition Diagnostic_Equal (d other : Diagnostic) : bool :=
  Severity_eqb (severity d) (severity other) &&
  String.eqb (summary d) (summary other) &&
  Detail_eqb (detail d) (detail other).

Definition Contains (diags : Diagnostics) (d : Diagnostic) : bool :=
  existsb (λ d', Diagnostic_Equal d' d) diags.

(** [diags.Append(in...)]: a diagnostic the collection already contains is
    not added again. *)
Definition Append (diags : Diagnostics) (ds : Diagnostics) : Diagnostics :=
  foldl (λ acc d, if Contains acc d then acc else (acc ++ [d])%list) diags ds.

Definition AddError (diags : Diagnostics) (summary : string) (detail : Detail)
    : Diagnostics :=
  Append diags [NewErrorDiagnostic summary detail].

Definition HasError (diags : Diagnostics) : bool :=
  existsb (λ d, Severity_eqb (severity d) SeverityError) diags.

End diag.

Import diag.

(** ** Values: the implementations of [attr.Value] *)

Module basetypes.

Inductive ValueState : Type :=
  | ValueStateNull
  | ValueStateUnknown
  | ValueStateKnown.

(** A value of interface type [attr.Value]: [nil], or one of the
    framework's value structs with its fields.  A struct that is null or
    unknown has the zero value in its other fields. *)
Inductive Value : Type :=
  | nil
  | BoolValue (state : ValueState) (value : bool)
  | NumberValue (state : ValueState) (value : option Qc)
  | StringValue (state : ValueState) (value : string)
  | ListValue (elements : list Value) (elementType : attr_Type)
      (state : ValueState)
  | TupleValue (elements : list Value) (elementTypes : list attr_Type)
      (state : ValueState)
  | ObjectValue (attributes : gmap string Value)
      (attributeTypes : gmap string attr_Type) (state : ValueState)
  | MapValue (elements : gmap string Value) (elementType : attr_Type)
      (state : ValueState)
  | DynamicValue (value : Value) (state : ValueState).

(** The method [Type(ctx)]; on a nil interface the call panics. *)
Definition Type_ (v : Value) : outcome attr_Type :=
  match v with
  | nil => Panic
  | BoolValue _ _ => Return BoolType
  | NumberValue _ _ => Return NumberType
  | StringValue _ _ => Return StringType
  | ListValue _ elementType _ => Return (ListType elementType)
  | TupleValue _ elementTypes _ => Return (TupleType elementTypes)
  | ObjectValue _ attributeTypes _ => Return (ObjectType attributeTypes)
  | MapValue _ elementType _ => Return (MapType elementType)
  | DynamicValue _ _ => Return DynamicType
  end.

(** The fields [state], [elements] and [attributes]. *)
Definition state (v : Value) : option ValueState :=
  match v with
  | nil => None
  | BoolValue st _ | NumberValue st _ | StringValue st _
  | ListValue _ _ st | TupleValue _ _ st | ObjectValue _ _ st
  | MapValue _ _ st | DynamicValue _ st => Some st
  end.

End basetypes.

Abbreviation attr_Value := basetypes.Value.
Abbreviation ValueStateNull := basetypes.ValueStateNull.
Abbreviation ValueStateUnknown := basetypes.ValueStateUnknown.
Abbreviation ValueStateKnown := basetypes.ValueStateKnown.

(** ** The value constructors of package [types] *)

Module types.

Definition BoolNull : attr_Value := basetypes.BoolValue ValueStateNull false.
Definition BoolValue (value : bool) : attr_Value :=
  basetypes.BoolValue ValueStateKnown value.

Definition NumberNull : attr_Value := basetypes.NumberValue ValueStateNull None.
Definition NumberValue (value : Qc) : attr_Value :=
  basetypes.NumberValue ValueStateKnown (Some value).

Definition StringNull : attr_Value := basetypes.StringValue ValueStateNull "".
Definition StringValue (value : string) : attr_Value :=
  basetypes.StringValue ValueStateKnown value.

Definition ListNull (elementType : attr_Type) : attr_Value :=
  basetypes.ListValue [] elementType ValueStateNull.
Definition ListUnknown (elementType : attr_Type) : attr_Value :=
  basetypes.ListValue [] elementType ValueStateUnknown.

Definition TupleNull (elementTypes : list attr_Type) : attr_Value :=
  basetypes.TupleValue [] elementTypes ValueStateNull.
Definition TupleUnknown (elementTypes : list attr_Type) : attr_Value :=
  basetypes.TupleValue [] elementTypes ValueStateUnknown.

Definition ObjectNull (attributeTypes : gmap string attr_Type) : attr_Value :=
  basetypes.ObjectValue ∅ attributeTypes ValueStateNull.
Definition ObjectUnknown (attributeTypes : gmap string attr_Type) : attr_Value :=
  basetypes.ObjectValue ∅ attributeTypes ValueStateUnknown.

Definition MapUnknown (elementType : attr_Type) : attr_Value :=
  basetypes.MapValue ∅ elementType ValueStateUnknown.

Definition DynamicValue (value : attr_Value) : attr_Value :=
  basetypes.DynamicValue value ValueStateKnown.

(** The checking constructors return their own diagnostics.  They end
    with [if diags.HasError() { return unknown, diags }] and
    [return known, nil]. *)
Definition finish (st : ended Diagnostics (outcome (attr_Value * Diagnostics)))
    (unknown known : attr_Value) : outcome (attr_Value * Diagnostics) :=
  match st with
  | Left r => r
  | Done diags =>
      if HasError diags then Return (unknown, diags) else Return (known, [])
  end.

(** [types.ListValue(elementType, elements)]: every element is to have the
    element type; [element.Type(ctx)] on a nil element panics. *)
Definition ListValue (elementType : attr_Type) (elements : list attr_Value)
    : outcome (attr_Value * Diagnostics) :=
  finish
    (range_from (λ idx element diags,
       match basetypes.Type_ element with
       | Panic => Exit Panic
       | Return ty =>
           if Equal elementType ty then Next diags
           else Next (AddError diags "Invalid List Element Type"
                        (ListElementType elementType idx ty))
       end) 0 elements [])
    (ListUnknown elementType)
    (basetypes.ListValue elements elementType ValueStateKnown).

(** [types.TupleValue(elementTypes, elements)]: as many elements as
    element types, each element of the type at its index. *)
Definition TupleValue (elementTypes : list attr_Type) (elements : list attr_Value)
    : outcome (attr_Value * Diagnostics) :=
  if negb (length elementTypes =? length elements)%nat then
    match range_from (λ _ v givenTypes,
            match basetypes.Type_ v with
            | Panic => Exit Panic
            | Return ty => Next (givenTypes ++ [ty])%list
            end) 0 elements [] with
    | Left r => r
    | Done givenTypes =>
        Return (TupleUnknown elementTypes,
                AddError [] "Invalid Tuple Elements"
                  (TupleElements elementTypes givenTypes))
    end
  else
    finish
      (range_from2 (λ i element elementType diags,
         match basetypes.Type_ element with
         | Panic => Exit Panic
         | Return ty =>
             if Equal elementType ty then Next diags
             else Next (AddError diags "Invalid Tuple Element"
                          (TupleElementType i elementType ty))
         end) Panic 0 elements elementTypes [])
      (TupleUnknown elementTypes)
      (basetypes.TupleValue elements elementTypes ValueStateKnown).

(** [types.ObjectValue(attributeTypes, attributes)]: under every name of
    [attributeTypes] a value of that type, and no value under another
    name. *)
Definition ObjectValue (attributeTypes : gmap string attr_Type)
    (attributes : gmap string attr_Value) : outcome (attr_Value * Diagnostics) :=
  match range_map (λ name attributeType diags,
          match attributes !! name with
          | None =>
              Next (AddError diags "Missing Object Attribute Value"
                      (MissingAttribute name))
          | Some attribute =>
              match basetypes.Type_ attribute with
              | Panic => Exit Panic
              | Return ty =>
                  if Equal attributeType ty then Next diags
                  else Next (AddError diags "Invalid Object Attribute Type"
                               (AttributeType name attributeType ty))
              end
          end) attributeTypes [] with
  | Left r => r
  | Done diags =>
      finish
        (range_map (λ name _ diags,
           match attributeTypes !! name with
           | None =>
               Next (AddError diags "Extra Object Attribute Value"
                       (ExtraAttribute name))
           | Some _ => Next diags
           end) attributes diags)
        (ObjectUnknown attributeTypes)
        (basetypes.ObjectValue attributes attributeTypes ValueStateKnown)
  end.

(** [types.MapValue(elementType, elements)]: every element is to have the
    element type. *)
Definition MapValue (elementType : attr_Type) (elements : gmap string attr_Value)
    : outcome (attr_Value * Diagnostics) :=
  finish
    (range_map (λ key element diags,
       match basetypes.Type_ element with
       | Panic => Exit Panic
       | Return ty =>
           if Equal elementType ty then Next diags
           else Next (AddError diags "Invalid Map Element Type"
                        (MapElementType elementType key ty))
       end) elements [])
    (MapUnknown elementType)
    (basetypes.MapValue elements elementType ValueStateKnown).

End types.

(** ** [inferAttrType] *)

(** The errors [inferAttrType] builds with [fmt.Errorf]:
    ["unsupported type %T"] and
    ["error inferring type for key %q: %w"]. *)
Inductive error : Type :=
  | unsupported_type (T : string)
  | error_inferring_key (key : string) (err : error).

(** The pair [(attr.Type, error)] that [inferAttrType] returns: a type and a
    nil error, or a nil type and an error. *)
Inductive inferred : Type :=
  | Ok (t : attr_Type)
  | Err (err : error).

Fixpoint inferAttrType (raw : interface) : inferred :=
  match raw with
  | go_nil => Ok StringType
  | go_bool _ => Ok BoolType
  | go_num _ _ => Ok NumberType
  | go_string _ => Ok StringType
  | go_slice v =>
      match v with
      | [] => Ok (ListType DynamicType)
      | v0 :: rest =>
          match inferAttrType v0 with
          | Err err => Err err
          | Ok firstType =>
              (* for i := 1; i < len(v); i++ *)
              match range_from (λ _ vi (homogeneous : bool),
                      match inferAttrType vi with
                      | Err err => Exit (Err err)
                      | Ok currType =>
                          if negb (DeepEqual firstType currType)
                          then Break false
                          else Next homogeneous
                      end) 1 rest true with
              | Left r => r
              | Done true => Ok (ListType firstType)
              | Done false =>
                  (* tupleTypes[i] = t, for i from 0 up *)
                  match range_from (λ _ elem tupleTypes,
                          match inferAttrType elem with
                          | Err err => Exit (Err err)
                          | Ok t => Next (tupleTypes ++ [t])%list
                          end) 0 v [] with
                  | Left r => r
                  | Done tupleTypes => Ok (TupleType tupleTypes)
                  end
              end
          end
      end
  | go_map v =>
      match range_map (λ key val (attrTypes : gmap string attr_Type),
              match inferAttrType val with
              | Err err => Exit (Err (error_inferring_key key err))
              | Ok inferred => Next (<[key:=inferred]> attrTypes)
              end) v ∅ with
      | Left r => r
      | Done attrTypes => Ok (ObjectType attrTypes)
      end
  | go_other T => Err (unsupported_type T)
  end.

(** ** [convertToAttrValue] *)

(** [m[key]]: the zero value, nil, when the map has no such key. *)
Definition index (m : gmap string interface) (key : string) : interface :=
  default go_nil (m !! key).

(** [big.NewFloat(n)] keeps the value of [n]. *)
Definition big_NewFloat (n : Qc) : Qc := n.

Fixpoint convertToAttrValue (raw : interface) (t : attr_Type) {struct t}
    : outcome (attr_Value * Diagnostics) :=
  let diags : Diagnostics := [] in
  match raw with
  | go_nil => Return (types.StringNull, diags)
  | _ =>
  match t with
  | BoolType =>
      match raw with
      | go_bool b => Return (types.BoolValue b, diags)
      | _ => Return (types.BoolNull,
                     AddError diags "Conversion Error" (Text "expected bool"))
      end
  | NumberType =>
      match raw with
      | go_num Float64 n => Return (types.NumberValue (big_NewFloat n), diags)
      | _ => Return (types.NumberNull,
                     AddError diags "Conversion Error" (Text "expected number"))
      end
  | StringType =>
      match raw with
      | go_string s => Return (types.StringValue s, diags)
      | _ => Return (types.StringNull,
                     AddError diags "Conversion Error" (Text "expected string"))
      end
  | ListType ElemType =>
      match raw with
      | go_slice slice =>
          match range_from (λ _ elem '(elems, diags),
                  match convertToAttrValue elem ElemType with
                  | Panic => Exit Panic
                  | Return (v, ds) => Next ((elems ++ [v])%list, Append diags ds)
                  end) 0 slice ([], diags) with
          | Left r => r
          | Done (elems, _) =>
              (* return types.ListValue(tt.ElemType, elems) *)
              types.ListValue ElemType elems
          end
      | _ => Return (types.ListNull ElemType,
                     AddError diags "Conversion Error"
                       (Text "expected slice for ListType"))
      end
  | TupleType ElemTypes =>
      match raw with
      | go_slice slice =>
          if negb (length slice =? length ElemTypes)%nat then
            Return (types.TupleNull ElemTypes,
                    AddError diags "Conversion Error" (Text "tuple length mismatch"))
          else
            match range_from2 (λ _ elem ElemType '(elems, diags),
                    match convertToAttrValue elem ElemType with
                    | Panic => Exit Panic
                    | Return (v, ds) => Next ((elems ++ [v])%list, Append diags ds)
                    end) Panic 0 slice ElemTypes ([], diags) with
            | Left r => r
            | Done (elems, _) =>
                (* return types.TupleValue(tt.ElemTypes, elems) *)
                types.TupleValue ElemTypes elems
            end
      | _ => Return (types.TupleNull ElemTypes,
                     AddError diags "Conversion Error"
                       (Text "expected slice for TupleType"))
      end
  | ObjectType AttrTypes =>
      match raw with
      | go_map m =>
          match range_map (λ key expectedType '(objValues, diags),
                  let value := index m key in
                  match convertToAttrValue value expectedType with
                  | Panic => Exit Panic
                  | Return (v, ds) =>
                      let diags := Append diags ds in
                      if HasError ds
                      then Exit (Return (types.ObjectNull AttrTypes, diags))
                      else Next (<[key:=v]> objValues, diags)
                  end) AttrTypes (∅, diags) with
          | Left r => r
          | Done (objValues, _) =>
              (* return types.ObjectValue(tt.AttrTypes, objValues) *)
              types.ObjectValue AttrTypes objValues
          end
      | _ => Return (types.ObjectNull AttrTypes,
                     AddError diags "Conversion Error"
                       (Text "expected map for ObjectType"))
      end
  | MapType ElemType =>
      match raw with
      | go_map m =>
          match range_map (λ key value '(mapValues, diags),
                  match convertToAttrValue value ElemType with
                  | Panic => Exit Panic
                  | Return (v, ds) =>
                      let diags := Append diags ds in
                      if HasError ds
                      then Exit (types.MapValue ElemType ∅)
                      else Next (<[key:=v]> mapValues, diags)
                  end) m (∅, diags) with
          | Left r => r
          | Done (mapValues, _) =>
              (* return types.MapValue(tt.ElemType, mapValues) *)
              types.MapValue ElemType mapValues
          end
      | _ =>
          let diags := AddError diags "Conversion Error"
                         (Text "expected map for MapType") in
          (* return types.MapValue(tt.ElemType, nil) *)
          types.MapValue ElemType ∅
      end
  | DynamicType | OtherType _ =>
      Return (basetypes.nil,
              AddError diags "Conversion Error"
                (Text ("unsupported type " ++ type_name t)))
  end
  end.

(** ** The walk through the outputs in [OutputDataSource.Read] *)

(** The four maps the walk fills.  A type that [inferAttrType] returned next
    to an error is the nil [attr.Type], [None] here. *)
Record projections : Type := {
  sensitiveTypes : gmap string (option attr_Type);
  sensitiveValues : gmap string attr_Value;
  nonSensitiveTypes : gmap string (option attr_Type);
  nonSensitiveValues : gmap string attr_Value
}.

(** [attrType, _ := inferAttrType(...)]: the error is dropped. *)
Definition type_of_inferred (r : inferred) : option attr_Type :=
  match r with
  | Ok t => Some t
  | Err _ => None
  end.

(** [convertToAttrValue] on an [attr.Type] that may be nil.  On the nil type
    no comparison with [types.BoolType], [types.NumberType] or
    [types.StringType] holds and no [case] of the type switch matches, which
    leaves the [default] branch; [%T] prints nil as [<nil>]. *)
Definition convertToAttrValue_nilable (raw : interface) (t : option attr_Type)
    : outcome (attr_Value * Diagnostics) :=
  match t with
  | Some t => convertToAttrValue raw t
  | None =>
      match raw with
      | go_nil => Return (types.StringNull, [])
      | _ => Return (basetypes.nil,
                     AddError [] "Conversion Error" (Text "unsupported type <nil>"))
      end
  end.

(** [myOutput["sensitive"] == false] *)
Definition is_false (v : interface) : bool :=
  match v with
  | go_bool false => true
  | _ => false
  end.

(** The loop [for x := range outputs]; it leaves [Read] by [return] on an
    output that is not a map. *)
Definition walk_outputs (outputs : gmap string interface)
    : ended projections (outcome unit) :=
  range_map (λ x output p,
    match output with
    | go_map myOutput =>
        let attrType := type_of_inferred (inferAttrType (index myOutput "value")) in
        match convertToAttrValue_nilable (index myOutput "value") attrType with
        | Panic => Exit Panic
        | Return (attrValue, _) =>
            let sensitiveTypes := <[x:=attrType]> (sensitiveTypes p) in
            let sensitiveValues := <[x:=attrValue]> (sensitiveValues p) in
            if is_false (index myOutput "sensitive") then
              Next {| sensitiveTypes := sensitiveTypes;
                      sensitiveValues := sensitiveValues;
                      nonSensitiveTypes := <[x:=attrType]> (nonSensitiveTypes p);
                      nonSensitiveValues := <[x:=attrValue]> (nonSensitiveValues p) |}
            else
              Next {| sensitiveTypes := sensitiveTypes;
                      sensitiveValues := sensitiveValues;
                      nonSensitiveTypes := nonSensitiveTypes p;
                      nonSensitiveValues := nonSensitiveValues p |}
        end
    | _ => Exit (Return ())
    end) outputs
    {| sensitiveTypes := ∅; sensitiveValues := ∅;
       nonSensitiveTypes := ∅; nonSensitiveValues := ∅ |}.

(** [types.ObjectValue] on the maps of the walk.  The walk binds the same
    names in a map of types and in its map of values, and the constructor
    calls [attributeType.Equal(attribute.Type(ctx))] for every such name: a
    nil type is a call on a nil interface. *)
Definition ObjectValue_nilable (attributeTypes : gmap string (option attr_Type))
    (attributes : gmap string attr_Value) : outcome (attr_Value * Diagnostics) :=
  if bool_decide (map_Forall (λ _ t, is_Some t) attributeTypes)
  then types.ObjectValue (omap id attributeTypes) attributes
  else Panic.

(** The fields of [OutputDataSourceModel] that [Read] computes. *)
Record OutputDataSourceModel : Type := {
  Values : attr_Value;
  NonSensitiveValues : attr_Value
}.

(** [Read] from the walk on, up to the assignment of the two fields:
    [respDiags] is [resp.Diagnostics] as it stands before the walk, and the
    result is the state, if [Read] got to assign it, with [resp.Diagnostics]. *)
Definition Read_outputs (outputs : gmap string interface) (respDiags : Diagnostics)
    : outcome (option OutputDataSourceModel * Diagnostics) :=
  match walk_outputs outputs with
  | Left Panic => Panic
  | Left (Return _) => Return (None, respDiags)
  | Done p =>
      match ObjectValue_nilable (sensitiveTypes p) (sensitiveValues p) with
      | Panic => Panic
      | Return (obj, diags) =>
          let respDiags := Append respDiags diags in
          if HasError respDiags then Return (None, respDiags)
          else
            let sensitiveOutputs := types.DynamicValue obj in
            match ObjectValue_nilable (nonSensitiveTypes p) (nonSensitiveValues p) with
            | Panic => Panic
            | Return (obj, diags) =>
                let respDiags := Append respDiags diags in
                if HasError respDiags then Return (None, respDiags)
                else
                  let nonSensitiveOutputs := types.DynamicValue obj in
                  Return (Some {| NonSensitiveValues := nonSensitiveOutputs;
                                  Values := sensitiveOutputs |},
                          respDiags)
            end
      end
  end.

(** ** [OutputDataSource.Read], from the decoded document on *)

(** [v.(map[string]interface{})] in its two-result form: the map, or no
    map and [ok] false. *)
Definition assert_map (v : interface) : option (gmap string interface) :=
  match v with
  | go_map m => Some m
  | _ => None
  end.

(** [Read] from [result], the document that [json.Unmarshal] decoded, up to
    the assignment of the two fields.  Where [result] has no map under
    ["values"], or that map none under ["outputs"], [Read] logs and
    returns. *)
Definition Read_result (result : gmap string interface) (respDiags : Diagnostics)
    : outcome (option OutputDataSourceModel * Diagnostics) :=
  match assert_map (index result "values") with
  | None => Return (None, respDiags)
  | Some values =>
      match assert_map (index values "outputs") with
      | None => Return (None, respDiags)
      | Some outputs => Read_outputs outputs respDiags
      end
  end.

(** ** The data sources and the Terrakube API *)

(** The entities of package [client], with the fields that the data sources
    read.  A nil [*VcsEntity] is [None]. *)
Module client.

Module OrganizationEntity.
Record t : Type := {
  ID : string;
  Description : string
}.
End OrganizationEntity.

Module VcsEntity.
Record t : Type := {
  ID : string
}.
End VcsEntity.

Module WorkspaceEntity.
Record t : Type := {
  ID : string;
  Description : string;
  Source : string;
  Branch : string;
  Folder : string;
  TemplateId : string;
  IaCType : string;
  IaCVersion : string;
  ExecutionMode : string;
  Deleted : bool;
  AllowRemoteApply : bool;
  Vcs : option VcsEntity.t
}.
End WorkspaceEntity.

Module TeamEntity.
Record t : Type := {
  ManageCollection : bool;
  ManageJob : bool;
  ManageModule : bool;
  ManageProvider : bool;
  ManageState : bool;
  ManageTemplate : bool;
  ManageVcs : bool;
  ManageWorkspace : bool
}.
End TeamEntity.

Module HistoryEntity.
Record t : Type := {
  Output : string
}.
End HistoryEntity.

End client.

(** The models of the two other data sources.  A field of type
    [types.String] or [types.Bool] holds a [basetypes.StringValue] or a
    [basetypes.BoolValue]. *)
Module WorkspaceDataSourceModel.
Record t : Type := {
  ID : attr_Value;
  Name : attr_Value;
  Description : attr_Value;
  Organization : attr_Value;
  OrganizationID : attr_Value;
  Source : attr_Value;
  Branch : attr_Value;
  Folder : attr_Value;
  TemplateID : attr_Value;
  IaCType : attr_Value;
  IaCVersion : attr_Value;
  ExecutionMode : attr_Value;
  Deleted : attr_Value;
  AllowRemoteApply : attr_Value;
  VCSID : attr_Value
}.
End WorkspaceDataSourceModel.

Module TeamDataSourceModel.
Record t : Type := {
  Organization : attr_Value;
  Name : attr_Value;
  ManageCollection : attr_Value;
  ManageJob : attr_Value;
  ManageModule : attr_Value;
  ManageProvider : attr_Value;
  ManageState : attr_Value;
  ManageTemplate : attr_Value;
  ManageVcs : attr_Value;
  ManageWorkspace : attr_Value
}.
End TeamDataSourceModel.

(** [Metadata]: the type name that the method stores in
    [resp.TypeName]. *)
Definition WorkspaceDataSource_Metadata (ProviderTypeName : string) : string :=
  ProviderTypeName ++ "_workspace".

Definition OutputDataSource_Metadata (ProviderTypeName : string) : string :=
  ProviderTypeName ++ "_output".

Definition TeamDataSource_Metadata (ProviderTypeName : string) : string :=
  ProviderTypeName ++ "_team".

(** [ValueString] of a [types.String]: the field [value], which is the
    empty string in a null or unknown value. *)
Definition ValueString (s : attr_Value) : string :=
  match s with
  | basetypes.StringValue _ value => value
  | _ => ""
  end.

(** What a data source finds around it after [Configure].  Its [client]
    and [token] and the server behind them are seen through [Do]; what the
    code logs with [tflog] is left out.
    - [NewRequest url]: [http.NewRequest(http.MethodGet, url, nil)] returns
      a request, or nil and an error.
    - [Do url]: [d.client.Do(req)] on the request for [url], followed by
      [io.ReadAll] on the body of the response: the bytes read, or [None]
      where [Do] returns a nil response next to its error.
    - [Quote s]: [fmt.Sprintf("%q", s)].
    - [UnmarshalOrganizations] and the like:
      [jsonapi.UnmarshalManyPayload] on the bytes of a response, for one
      entity type: the entities, or nil next to an error, which is kept as
      the text that [Sprintf] builds from response and error.
    - [json_Unmarshal]: [json.Unmarshal(bodyFile, &result)], the decoded
      document or an error.
    - [TeamState_Set] and the like: the diagnostics that
      [resp.State.Set(ctx, &state)] returns. *)
Record environment : Type := {
  endpoint : string;
  NewRequest : string → bool;
  Do : string → option string;
  Quote : string → string;
  UnmarshalOrganizations : string → string + list client.OrganizationEntity.t;
  UnmarshalWorkspaces : string → string + list client.WorkspaceEntity.t;
  UnmarshalTeams : string → string + list client.TeamEntity.t;
  UnmarshalHistories : string → string + list client.HistoryEntity.t;
  json_Unmarshal : string → option (gmap string interface);
  TeamState_Set : TeamDataSourceModel.t → Diagnostics;
  WorkspaceState_Set : WorkspaceDataSourceModel.t → Diagnostics;
  OutputState_Set : OutputDataSourceModel → Diagnostics
}.

Section data_sources.
Variable env : environment.

(** [String] of a [types.String] *)
Definition String_ (s : attr_Value) : string :=
  match s with
  | basetypes.StringValue basetypes.ValueStateKnown value => Quote env value
  | basetypes.StringValue basetypes.ValueStateNull _ => "<null>"
  | basetypes.StringValue basetypes.ValueStateUnknown _ => "<unknown>"
  | _ => ""
  end.

Section ReadDataFromApi.
Context {A : Type}.

Variable UnmarshalManyPayload : string → string + list A.

(** [ReadDataFromApi] of [OutputDataSource] and of [TeamDataSource], which
    differ in what they log.  The headers are added to the request before
    the error of [http.NewRequest] is looked at, and the status of the
    response is read where the error of [Do] is logged. *)
Definition ReadDataFromApi (url : string) (respDiags : Diagnostics)
    : outcome (list A * Diagnostics) :=
  if NewRequest env url then
    match Do env url with
    | None => Panic
    | Some body =>
        match UnmarshalManyPayload body with
        | inl detail =>
            Return ([], AddError respDiags "Unable to unmarshal payload"
                          (Text detail))
        | inr data => Return (data, respDiags)
        end
    end
  else Panic.

End ReadDataFromApi.

(** The URLs of the requests. *)
Definition organization_url (Organization : attr_Value) : string :=
  endpoint env ++ "/api/v1/organization?filter[organization]=name=="
    ++ ValueString Organization.

Definition workspace_url (OrganizationID Name : string) : string :=
  endpoint env ++ "/api/v1/organization/" ++ OrganizationID
    ++ "/workspace?filter[workspace]=name==" ++ Name.

Definition team_url (OrganizationID teamName : string) : string :=
  endpoint env ++ "/api/v1/organization/" ++ OrganizationID
    ++ "/team?filter[team]=name==" ++ teamName.

Definition history_url (OrganizationID WorkspaceId : string) : string :=
  endpoint env ++ "/api/v1/organization/" ++ OrganizationID
    ++ "/workspace/" ++ WorkspaceId ++ "/history?sort=-createdDate".

(** The diagnostics ["Organization %s not found!"] and the like. *)
Definition not_found (respDiags : Diagnostics) (kind name : string) : Diagnostics :=
  AddError respDiags (kind ++ " " ++ name ++ " not found!") (Text name).

(** [for _, organization := range orgs { OrganizationID = data.ID }] *)
Definition last_organization_ID (orgs : list client.OrganizationEntity.t) : string :=
  foldl (λ _ data, client.OrganizationEntity.ID data) "" orgs.

(** *** [TeamDataSource.Read] *)

(** The body of the loop over the teams. *)
Definition team_body (state : TeamDataSourceModel.t) (data : client.TeamEntity.t)
    : TeamDataSourceModel.t :=
  {| TeamDataSourceModel.Organization := TeamDataSourceModel.Organization state;
     TeamDataSourceModel.Name := TeamDataSourceModel.Name state;
     TeamDataSourceModel.ManageCollection :=
       types.BoolValue (client.TeamEntity.ManageCollection data);
     TeamDataSourceModel.ManageJob :=
       types.BoolValue (client.TeamEntity.ManageJob data);
     TeamDataSourceModel.ManageModule :=
       types.BoolValue (client.TeamEntity.ManageModule data);
     TeamDataSourceModel.ManageProvider :=
       types.BoolValue (client.TeamEntity.ManageProvider data);
     TeamDataSourceModel.ManageState :=
       types.BoolValue (client.TeamEntity.ManageState data);
     TeamDataSourceModel.ManageTemplate :=
       types.BoolValue (client.TeamEntity.ManageTemplate data);
     TeamDataSourceModel.ManageVcs :=
       types.BoolValue (client.TeamEntity.ManageVcs data);
     TeamDataSourceModel.ManageWorkspace :=
       types.BoolValue (client.TeamEntity.ManageWorkspace data) |}.

(** [config] is the state as [req.Config.Get] fills it; the result is the
    state given to [resp.State.Set], if [Read] gets there, with
    [resp.Diagnostics]. *)
Definition TeamDataSource_Read (config : TeamDataSourceModel.t)
    (respDiags : Diagnostics)
    : outcome (option TeamDataSourceModel.t * Diagnostics) :=
  let state := config in
  let teamName := ValueString (TeamDataSourceModel.Name state) in
  match ReadDataFromApi (UnmarshalOrganizations env)
          (organization_url (TeamDataSourceModel.Organization state))
          respDiags with
  | Panic => Panic
  | Return (orgs, respDiags) =>
      if (length orgs =? 0)%nat then
        Return (None, not_found respDiags "Organization"
                        (String_ (TeamDataSourceModel.Organization state)))
      else
        let OrganizationID := last_organization_ID orgs in
        match ReadDataFromApi (UnmarshalTeams env) (team_url OrganizationID teamName)
                respDiags with
        | Panic => Panic
        | Return (teams, respDiags) =>
            if (length teams =? 0)%nat then
              Return (None, not_found respDiags "Team" teamName)
            else
              let state := foldl team_body state teams in
              let diags := TeamState_Set env state in
              Return (Some state, Append respDiags diags)
        end
  end.

(** *** [WorkspaceDataSource.Read] *)

(** The bodies of the loops over the organizations and the workspaces. *)
Definition workspace_organization_body (state : WorkspaceDataSourceModel.t)
    (data : client.OrganizationEntity.t) : WorkspaceDataSourceModel.t :=
  {| WorkspaceDataSourceModel.ID :=
       types.StringValue (client.OrganizationEntity.ID data);
     WorkspaceDataSourceModel.Name := WorkspaceDataSourceModel.Name state;
     WorkspaceDataSourceModel.Description :=
       types.StringValue (client.OrganizationEntity.Description data);
     WorkspaceDataSourceModel.Organization :=
       WorkspaceDataSourceModel.Organization state;
     WorkspaceDataSourceModel.OrganizationID :=
       types.StringValue (client.OrganizationEntity.ID data);
     WorkspaceDataSourceModel.Source := WorkspaceDataSourceModel.Source state;
     WorkspaceDataSourceModel.Branch := WorkspaceDataSourceModel.Branch state;
     WorkspaceDataSourceModel.Folder := WorkspaceDataSourceModel.Folder state;
     WorkspaceDataSourceModel.TemplateID :=
       WorkspaceDataSourceModel.TemplateID state;
     WorkspaceDataSourceModel.IaCType := WorkspaceDataSourceModel.IaCType state;
     WorkspaceDataSourceModel.IaCVersion :=
       WorkspaceDataSourceModel.IaCVersion state;
     WorkspaceDataSourceModel.ExecutionMode :=
       WorkspaceDataSourceModel.ExecutionMode state;
     WorkspaceDataSourceModel.Deleted := WorkspaceDataSourceModel.Deleted state;
     WorkspaceDataSourceModel.AllowRemoteApply :=
       WorkspaceDataSourceModel.AllowRemoteApply state;
     WorkspaceDataSourceModel.VCSID := WorkspaceDataSourceModel.VCSID state |}.

Definition workspace_body (state : WorkspaceDataSourceModel.t)
    (data : client.WorkspaceEntity.t) : WorkspaceDataSourceModel.t :=
  {| WorkspaceDataSourceModel.ID :=
       types.StringValue (client.WorkspaceEntity.ID data);
     WorkspaceDataSourceModel.Name := WorkspaceDataSourceModel.Name state;
     WorkspaceDataSourceModel.Description :=
       types.StringValue (client.WorkspaceEntity.Description data);
     WorkspaceDataSourceModel.Organization :=
       WorkspaceDataSourceModel.Organization state;
     WorkspaceDataSourceModel.OrganizationID :=
       WorkspaceDataSourceModel.OrganizationID state;
     WorkspaceDataSourceModel.Source :=
       types.StringValue (client.WorkspaceEntity.Source data);
     WorkspaceDataSourceModel.Branch :=
       types.StringValue (client.WorkspaceEntity.Branch data);
     WorkspaceDataSourceModel.Folder :=
       types.StringValue (client.WorkspaceEntity.Folder data);
     WorkspaceDataSourceModel.TemplateID :=
       types.StringValue (client.WorkspaceEntity.TemplateId data);
     WorkspaceDataSourceModel.IaCType :=
       types.StringValue (client.WorkspaceEntity.IaCType data);
     WorkspaceDataSourceModel.IaCVersion :=
       types.StringValue (client.WorkspaceEntity.IaCVersion data);
     WorkspaceDataSourceModel.ExecutionMode :=
       types.StringValue (client.WorkspaceEntity.ExecutionMode data);
     WorkspaceDataSourceModel.Deleted :=
       types.BoolValue (client.WorkspaceEntity.Deleted data);
     WorkspaceDataSourceModel.AllowRemoteApply :=
       types.BoolValue (client.WorkspaceEntity.AllowRemoteApply data);
     WorkspaceDataSourceModel.VCSID :=
       match client.WorkspaceEntity.Vcs data with
       | Some vcs => types.StringValue (client.VcsEntity.ID vcs)
       | None => WorkspaceDataSourceModel.VCSID state
       end |}.

(** One request of [WorkspaceDataSource.Read], which has the code of
    [ReadDataFromApi] inline, up to the payload: the entities, or the
    detail text of the error of [jsonapi.UnmarshalManyPayload]. *)
Definition request {A : Type} (UnmarshalManyPayload : string → string + list A)
    (url : string) : outcome (string + list A) :=
  if NewRequest env url then
    match Do env url with
    | None => Panic
    | Some body => Return (UnmarshalManyPayload body)
    end
  else Panic.

Definition WorkspaceDataSource_Read (config : WorkspaceDataSourceModel.t)
    (respDiags : Diagnostics)
    : outcome (option WorkspaceDataSourceModel.t * Diagnostics) :=
  let state := config in
  match request (UnmarshalOrganizations env)
          (organization_url (WorkspaceDataSourceModel.Organization state)) with
  | Panic => Panic
  | Return (inl detail) =>
      Return (None, AddError respDiags "Unable to unmarshal payload" (Text detail))
  | Return (inr orgs) =>
      if (length orgs =? 0)%nat then
        Return (None, not_found respDiags "Organization"
                        (String_ (WorkspaceDataSourceModel.Organization state)))
      else
        let state := foldl workspace_organization_body state orgs in
        match request (UnmarshalWorkspaces env)
                (workspace_url
                   (ValueString (WorkspaceDataSourceModel.OrganizationID state))
                   (ValueString (WorkspaceDataSourceModel.Name state))) with
        | Panic => Panic
        | Return (inl detail) =>
            Return (None, AddError respDiags "Unable to unmarshal payload"
                            (Text detail))
        | Return (inr workspaces) =>
            if (length workspaces =? 0)%nat then
              Return (None, not_found respDiags "Workspace"
                              (String_ (WorkspaceDataSourceModel.Name state)))
            else
              let state := foldl workspace_body state workspaces in
              let diags := WorkspaceState_Set env state in
              Return (Some state, Append respDiags diags)
        end
  end.

(** *** [OutputDataSource.Read] *)

(** [Organization] and [Workspace] are the two fields of the state that
    [req.Config.Get] fills. *)
Definition OutputDataSource_Read (Organization Workspace : attr_Value)
    (respDiags : Diagnostics)
    : outcome (option OutputDataSourceModel * Diagnostics) :=
  match ReadDataFromApi (UnmarshalOrganizations env) (organization_url Organization)
          respDiags with
  | Panic => Panic
  | Return (orgs, respDiags) =>
      if (length orgs =? 0)%nat then
        Return (None, not_found respDiags "Organization" (String_ Organization))
      else
        let OrganizationID := last_organization_ID orgs in
        match ReadDataFromApi (UnmarshalWorkspaces env)
                (workspace_url OrganizationID (ValueString Workspace))
                respDiags with
        | Panic => Panic
        | Return (workspaces, respDiags) =>
            if (length workspaces =? 0)%nat then
              Return (None, not_found respDiags "Workspace" (String_ Workspace))
            else
              let WorkspaceId :=
                foldl (λ _ data, client.WorkspaceEntity.ID data) "" workspaces in
              match ReadDataFromApi (UnmarshalHistories env)
                      (history_url OrganizationID WorkspaceId) respDiags with
              | Panic => Panic
              | Return (Histories, respDiags) =>
                  match Histories with
                  | [] => Return (None, respDiags)
                  | data :: _ =>
                      let OutputUrl := client.HistoryEntity.Output data in
                      if NewRequest env OutputUrl then
                        match Do env OutputUrl with
                        | None => Panic
                        | Some bodyFile =>
                            match json_Unmarshal env bodyFile with
                            | None => Return (None, respDiags)
                            | Some result =>
                                match Read_result result respDiags with
                                | Panic => Panic
                                | Return (None, respDiags) =>
                                    Return (None, respDiags)
                                | Return (Some state, respDiags) =>
                                    let diags2 := OutputState_Set env state in
                                    Return (Some state, Append respDiags diags2)
                                end
                            end
                        end
                      else Panic
                  end
              end
        end
  end.

End data_sources.

(** ** Notions used to state the properties *)

(** The values [encoding/json] decodes into an [interface{}]: nil, [bool],
    [float64], [string], [[]interface{}] and [map[string]interface{}]. *)
Fixpoint is_json (v : interface) : bool :=
  match v with
  | go_nil | go_bool _ | go_string _ => true
  | go_num Float64 _ => true
  | go_num _ _ => false
  | go_slice l => forallb is_json l
  | go_map m => map_fold (λ _ x acc, acc && is_json x) true m
  | go_other _ => false
  end.

(** A value has the shape of the decoded value it was built from: a null
    for nil, the same scalar, a known list or tuple with as many elements,
    each of the shape of the element at its index, a known object with the
    same key set, each attribute of the shape of the value under its key. *)
Inductive mirrors : interface → attr_Value → Prop :=
  | mirrors_nil v :
      basetypes.state v = Some ValueStateNull → mirrors go_nil v
  | mirrors_bool b :
      mirrors (go_bool b) (basetypes.BoolValue ValueStateKnown b)
  | mirrors_num k n :
      mirrors (go_num k n) (basetypes.NumberValue ValueStateKnown (Some n))
  | mirrors_string s :
      mirrors (go_string s) (basetypes.StringValue ValueStateKnown s)
  | mirrors_list l elements elementType :
      Forall2 mirrors l elements →
      mirrors (go_slice l) (basetypes.ListValue elements elementType ValueStateKnown)
  | mirrors_tuple l elements elementTypes :
      Forall2 mirrors l elements →
      mirrors (go_slice l) (basetypes.TupleValue elements elementTypes ValueStateKnown)
  | mirrors_object m attributes attributeTypes :
      (∀ k, option_Forall2 mirrors (m !! k) (attributes !! k)) →
      mirrors (go_map m) (basetypes.ObjectValue attributes attributeTypes ValueStateKnown).

(** Sizes, for induction through the slices and maps inside a value or a
    type. *)
Fixpoint interface_size (v : interface) : nat :=
  match v with
  | go_slice l => S (foldr (λ x n, interface_size x + n) 0 l)
  | go_map m => S (map_fold (λ _ x n, interface_size x + n) 0 m)
  | _ => 1
  end.

Fixpoint type_size (t : attr_Type) : nat :=
  match t with
  | ListType ElemType | MapType ElemType => S (type_size ElemType)
  | TupleType ElemTypes => S (foldr (λ x n, type_size x + n) 0 ElemTypes)
  | ObjectType AttrTypes => S (map_fold (λ _ x n, type_size x + n) 0 AttrTypes)
  | _ => 1
  end.

(** The elements of [l] are inferred as the types [ts], index by index. *)
Definition infers (l : list interface) (ts : list attr_Type) : Prop :=
  Forall2 (λ x t, inferAttrType x = Ok t) l ts.

(** The bodies of the two loops of [inferAttrType] over a slice: the
    comparison of every further element type with the first one, and the
    collection of all element types. *)
Definition homogeneous_body (firstType : attr_Type)
    : nat → interface → bool → flow bool inferred :=
  λ _ vi homogeneous,
    match inferAttrType vi with
    | Err err => Exit (Err err)
    | Ok currType =>
        if negb (DeepEqual firstType currType) then Break false
        else Next homogeneous
    end.

Definition tuple_body
    : nat → interface → list attr_Type → flow (list attr_Type) inferred :=
  λ _ elem tupleTypes,
    match inferAttrType elem with
    | Err err => Exit (Err err)
    | Ok t => Next (tupleTypes ++ [t])%list
    end.

(** The conversion of [v] against the type [t] returns the value [val],
    which has that type and, for a decoded JSON value, comes with no
    diagnostic and has the shape of [v]. *)
Definition converted (v : interface) (t : attr_Type) (val : attr_Value) : Prop :=
  ∃ ds, convertToAttrValue v t = Return (val, ds) ∧
        basetypes.Type_ val = Return t ∧
        (is_json v = true → ds = [] ∧ mirrors v val).

Definition converts_well (v : interface) : Prop :=
  ∀ t, inferAttrType v = Ok t → ∃ val, converted v t val.

(** The target types for which [convertToAttrValue] has no branch. *)
Definition unsupported (t : attr_Type) : bool :=
  match t with
  | DynamicType | OtherType _ => true
  | _ => false
  end.

(** The loop of the [ObjectType] case, over the declared attributes. *)
Definition object_body (m : gmap string interface) (AttrTypes : gmap string attr_Type)
    : string → attr_Type → gmap string attr_Value * Diagnostics →
      flow (gmap string attr_Value * Diagnostics) (outcome (attr_Value * Diagnostics)) :=
  λ key expectedType '(objValues, diags),
    match convertToAttrValue (index m key) expectedType with
    | Panic => Exit Panic
    | Return (v, ds) =>
        if HasError ds
        then Exit (Return (types.ObjectNull AttrTypes, Append diags ds))
        else Next (<[key:=v]> objValues, Append diags ds)
    end.


(** An entry of [outputs], its fields ["value"] and ["sensitive"], and what
    the walk computes from it. *)
Definition is_map (output : interface) : bool :=
  match output with
  | go_map _ => true
  | _ => false
  end.

Definition output_fields (output : interface) : gmap string interface :=
  match output with
  | go_map myOutput => myOutput
  | _ => ∅
  end.

Definition output_value (output : interface) : interface :=
  index (output_fields output) "value".

Definition output_sensitive (output : interface) : interface :=
  index (output_fields output) "sensitive".

Definition output_type (output : interface) : option attr_Type :=
  type_of_inferred (inferAttrType (output_value output)).

Definition output_converted (output : interface) : attr_Value :=
  match convertToAttrValue_nilable (output_value output) (output_type output) with
  | Return (attrValue, _) => attrValue
  | Panic => basetypes.nil
  end.

(** An output record whose value was decoded from JSON. *)
Definition is_json_output (output : interface) : bool :=
  is_map output && is_json (output_value output).

(** What the walk leaves under the name [x] in its four maps. *)
Definition walked (outputs : gmap string interface) (p : projections) : Prop :=
  ∀ x,
    sensitiveTypes p !! x = output_type <$> outputs !! x ∧
    sensitiveValues p !! x = output_converted <$> outputs !! x ∧
    nonSensitiveTypes p !! x
    = (outputs !! x ≫= λ o,
         if is_false (output_sensitive o) then Some (output_type o) else None) ∧
    nonSensitiveValues p !! x
    = (outputs !! x ≫= λ o,
         if is_false (output_sensitive o) then Some (output_converted o) else None).

(** An output record with a JSON value and a boolean [sensitive] flag. *)
Definition is_output_pair (output : interface) : bool :=
  is_json_output output &&
  match output_sensitive output with
  | go_bool _ => true
  | _ => false
  end.

(** No value of a dynamic type that [inferAttrType] has no [case] for, at
    any depth. *)
Fixpoint inferable (v : interface) : bool :=
  match v with
  | go_slice l => forallb inferable l
  | go_map m => map_fold (λ _ x acc, acc && inferable x) true m
  | go_other _ => false
  | _ => true
  end.

(** The types that [inferAttrType] builds: scalars, lists of such a type or
    of [DynamicType], tuples of at least two such types not all equal to
    the first, objects of such types. *)
Fixpoint inferred_shape (t : attr_Type) : bool :=
  match t with
  | BoolType | NumberType | StringType => true
  | ListType ElemType =>
      match ElemType with
      | DynamicType => true
      | _ => inferred_shape ElemType
      end
  | TupleType ElemTypes =>
      forallb inferred_shape ElemTypes &&
      match ElemTypes with
      | [] => false
      | t0 :: rest => negb (forallb (Equal t0) rest)
      end
  | ObjectType AttrTypes =>
      map_fold (λ _ x acc, acc && inferred_shape x) true AttrTypes
  | DynamicType | MapType _ | OtherType _ => false
  end.


(** The last character of a string. *)
Fixpoint last_char (s : string) : option Ascii.ascii :=
  match s with
  | EmptyString => None
  | String c EmptyString => Some c
  | String _ s' => last_char s'
  end.

(** The [types.String] that [state.VCSID] holds after the loop over the
    workspaces: the ID of the last [Vcs] that is not nil, or what the field
    held before. *)
Definition last_VCSID (VCSID : attr_Value) (workspaces : list client.WorkspaceEntity.t)
    : attr_Value :=
  from_option (λ vcs, types.StringValue (client.VcsEntity.ID vcs)) VCSID
    (last (omap client.WorkspaceEntity.Vcs workspaces)).

(** ** Values used as examples *)

Definition example_document : interface :=
  go_map (<["name" := go_string "db"]>
         (<["ports" := go_slice [go_num Float64 1%Qc; go_num Float64 2%Qc]]>
         (<["mixed" := go_slice [go_num Float64 1%Qc; go_string "a"; go_nil;
                                 go_slice []]]>
         (<["tags" := go_map (<["ok" := go_bool true]> ∅)]> ∅)))).

Definition example_fields : gmap string interface :=
  <["a" := go_string "x"]> (<["c" := go_bool true]> ∅).

Definition example_AttrTypes : gmap string attr_Type :=
  <["a" := NumberType]> (<["b" := StringType]> ∅).

Definition record (value sensitive : interface) : interface :=
  go_map (<["value" := value]> (<["sensitive" := sensitive]> ∅)).

Definition example_outputs : gmap string interface :=
  <["x" := record (go_num Float64 (Q2Qc (QArith_base.inject_Z 5))) (go_bool false)]>
  (<["y" := record (go_string "secret") (go_bool true)]> ∅).

Definition example_flags : gmap string interface :=
  <["absent" := go_map (<["value" := go_num Float64 1%Qc]> ∅)]>
  (<["null" := record (go_num Float64 1%Qc) go_nil]>
  (<["text" := record (go_num Float64 1%Qc) (go_string "false")]>
  (<["false" := record (go_num Float64 1%Qc) (go_bool false)]> ∅))).

Definition failing_outputs : gmap string interface :=
  <["x" := record (go_other "json.Number") (go_bool false)]>
  (<["y" := record (go_string "s") (go_bool false)]> ∅).

Definition example_organization (ID : string) : client.OrganizationEntity.t :=
  {| client.OrganizationEntity.ID := ID;
     client.OrganizationEntity.Description := "an organization" |}.

Definition example_workspace (ID : string) (Vcs : option client.VcsEntity.t)
    : client.WorkspaceEntity.t :=
  {| client.WorkspaceEntity.ID := ID;
     client.WorkspaceEntity.Description := "a workspace";
     client.WorkspaceEntity.Source := "https://git/repo";
     client.WorkspaceEntity.Branch := "main";
     client.WorkspaceEntity.Folder := "/";
     client.WorkspaceEntity.TemplateId := "t1";
     client.WorkspaceEntity.IaCType := "terraform";
     client.WorkspaceEntity.IaCVersion := "1.5.0";
     client.WorkspaceEntity.ExecutionMode := "remote";
     client.WorkspaceEntity.Deleted := false;
     client.WorkspaceEntity.AllowRemoteApply := true;
     client.WorkspaceEntity.Vcs := Vcs |}.

Definition example_team (manage : bool) : client.TeamEntity.t :=
  {| client.TeamEntity.ManageCollection := manage;
     client.TeamEntity.ManageJob := manage;
     client.TeamEntity.ManageModule := manage;
     client.TeamEntity.ManageProvider := manage;
     client.TeamEntity.ManageState := manage;
     client.TeamEntity.ManageTemplate := manage;
     client.TeamEntity.ManageVcs := manage;
     client.TeamEntity.ManageWorkspace := manage |}.

Definition example_result : gmap string interface :=
  <["values" := go_map (<["outputs" := go_map example_outputs]> ∅)]> ∅.

(** A server that answers every request, with the given organizations and
    histories, three workspaces of which the second alone has a VCS, and
    two teams. *)
Definition example_env (organizations : string + list client.OrganizationEntity.t)
    (histories : string + list client.HistoryEntity.t) : environment :=
  {| endpoint := "https://terrakube";
     NewRequest := λ _, true;
     Do := λ url, Some url;
     Quote := λ s, s;
     UnmarshalOrganizations := λ _, organizations;
     UnmarshalWorkspaces := λ _,
       inr [example_workspace "w1" None;
            example_workspace "w2" (Some {| client.VcsEntity.ID := "vcs2" |});
            example_workspace "w3" None];
     UnmarshalTeams := λ _, inr [example_team true; example_team false];
     UnmarshalHistories := λ _, histories;
     json_Unmarshal := λ _, Some example_result;
     TeamState_Set := λ _, [];
     WorkspaceState_Set := λ _, [];
     OutputState_Set := λ _, [] |}.

Definition example_organizations : string + list client.OrganizationEntity.t :=
  inr [example_organization "o1"; example_organization "o2"].

Definition example_histories : string + list client.HistoryEntity.t :=
  inr [{| client.HistoryEntity.Output := "https://terrakube/output.json" |}].

Definition example_team_config : TeamDataSourceModel.t :=
  {| TeamDataSourceModel.Organization := types.StringValue "acme";
     TeamDataSourceModel.Name := types.StringValue "devs";
     TeamDataSourceModel.ManageCollection := types.BoolNull;
     TeamDataSourceModel.ManageJob := types.BoolNull;
     TeamDataSourceModel.ManageModule := types.BoolNull;
     TeamDataSourceModel.ManageProvider := types.BoolNull;
     TeamDataSourceModel.ManageState := types.BoolNull;
     TeamDataSourceModel.ManageTemplate := types.BoolNull;
     TeamDataSourceModel.ManageVcs := types.BoolNull;
     TeamDataSourceModel.ManageWorkspace := types.BoolNull |}.

Definition example_workspace_config : WorkspaceDataSourceModel.t :=
  {| WorkspaceDataSourceModel.ID := types.StringNull;
     WorkspaceDataSourceModel.Name := types.StringValue "prod";
     WorkspaceDataSourceModel.Description := types.StringNull;
     WorkspaceDataSourceModel.Organization := types.StringValue "acme";
     WorkspaceDataSourceModel.OrganizationID := types.StringNull;
     WorkspaceDataSourceModel.Source := types.StringNull;
     WorkspaceDataSourceModel.Branch := types.StringNull;
     WorkspaceDataSourceModel.Folder := types.StringNull;
     WorkspaceDataSourceModel.TemplateID := types.StringNull;
     WorkspaceDataSourceModel.IaCType := types.StringNull;
     WorkspaceDataSourceModel.IaCVersion := types.StringNull;
     WorkspaceDataSourceModel.ExecutionMode := types.StringNull;
     WorkspaceDataSourceModel.Deleted := types.BoolNull;
     WorkspaceDataSourceModel.AllowRemoteApply := types.BoolNull;
     WorkspaceDataSourceModel.VCSID := types.StringNull |}.

(** * Properties *)

#[local] Close Scope string_scope.

(** ** Induction through slices and maps *)

Section sizes.
Context {A : Type} (size : A → nat).

Lemma foldr_size_elem (l : list A) (x : A) :
  x ∈ l → size x ≤ foldr (λ x n, size x + n) 0 l.
Proof.
  induction 1 as [x l|x y l _ IH]; simpl; lia.
Qed.

Lemma map_fold_size_lookup (m : gmap string A) (k : string) (x : A) :
  m !! k = Some x → size x ≤ map_fold (λ _ x n, size x + n) 0 m.
Proof.
  revert k x.
  apply (map_fold_weak_ind (λ n m, ∀ k x, m !! k = Some x → size x ≤ n)).
  - intros k x H. by rewrite lookup_empty in H.
  - intros i y m' r _ IH k x. rewrite lookup_insert.
    case_decide; intros Hx.
    + injection Hx as ->. lia.
    + specialize (IH _ _ Hx). lia.
Qed.
End sizes.

Lemma interface_ind' (P : interface → Prop) :
  P go_nil →
  (∀ b, P (go_bool b)) →
  (∀ k n, P (go_num k n)) →
  (∀ s, P (go_string s)) →
  (∀ l, Forall P l → P (go_slice l)) →
  (∀ m, map_Forall (λ _, P) m → P (go_map m)) →
  (∀ T, P (go_other T)) →
  ∀ v, P v.
Proof.
  intros Hnil Hbool Hnum Hstr Hslice Hmap Hother v.
  remember (interface_size v) as n eqn:Hn.
  revert v Hn. induction n as [n IH] using lt_wf_ind. intros v ->.
  destruct v as [| | | |l|m|]; auto.
  - apply Hslice, Forall_forall. intros x Hx.
    apply (IH (interface_size x)); [|done].
    pose proof (foldr_size_elem interface_size l x Hx). simpl. lia.
  - apply Hmap. intros k x Hx.
    apply (IH (interface_size x)); [|done].
    pose proof (map_fold_size_lookup interface_size m k x Hx). simpl. lia.
Qed.

Lemma attr_Type_ind' (P : attr_Type → Prop) :
  P BoolType → P NumberType → P StringType → P DynamicType →
  (∀ t, P t → P (ListType t)) →
  (∀ ts, Forall P ts → P (TupleType ts)) →
  (∀ m, map_Forall (λ _, P) m → P (ObjectType m)) →
  (∀ t, P t → P (MapType t)) →
  (∀ T, P (OtherType T)) →
  ∀ t, P t.
Proof.
  intros Hb Hn Hs Hd Hlist Htuple Hobj Hmap Hother t.
  remember (type_size t) as n eqn:Hn'.
  revert t Hn'. induction n as [n IH] using lt_wf_ind. intros t ->.
  destruct t as [| | | |t|ts|m|t|]; auto.
  - apply Hlist, (IH (type_size t)); [simpl; lia|done].
  - apply Htuple, Forall_forall. intros x Hx.
    apply (IH (type_size x)); [|done].
    pose proof (foldr_size_elem type_size ts x Hx). simpl. lia.
  - apply Hobj. intros k x Hx.
    apply (IH (type_size x)); [|done].
    pose proof (map_fold_size_lookup type_size m k x Hx). simpl. lia.
  - apply Hmap, (IH (type_size t)); [simpl; lia|done].
Qed.

(** ** Equality of type descriptors is structural *)

Lemma forall2b_spec {A : Type} (f : A → A → bool) (l k : list A) :
  Forall (λ a, ∀ b, f a b = true ↔ a = b) l →
  forall2b f l k = true ↔ l = k.
Proof.
  intros Hl. revert k.
  induction Hl as [|a l Ha _ IH]; intros [|b k]; simpl; try done.
  rewrite andb_true_iff, Ha, IH.
  split; [by intros [-> ->]|by intros [= -> ->]].
Qed.

Lemma map_fold_andb {A : Type} (p : string → A → bool) (m : gmap string A) :
  map_fold (λ k a acc, acc && p k a) true m = true ↔
  map_Forall (λ k a, p k a = true) m.
Proof.
  apply (map_fold_weak_ind
    (λ r m, r = true ↔ map_Forall (λ k a, p k a = true) m)).
  - split; [intros _; apply map_Forall_empty|done].
  - intros i x m' r Hi IH.
    rewrite andb_true_iff, IH, map_Forall_insert by done. tauto.
Qed.

Lemma Equal_spec (t o : attr_Type) : Equal t o = true ↔ t = o.
Proof.
  revert o.
  induction t as [| | | |t IH|ts IH|m IH|t IH|T] using attr_Type_ind';
    intros [| | | |o|os|n|o|T']; simpl; try done.
  - rewrite IH. split; [by intros ->|by intros [= ->]].
  - rewrite forall2b_spec by done. split; [by intros ->|by intros [= ->]].
  - rewrite andb_true_iff, Nat.eqb_eq, map_fold_andb. split.
    + intros [Hsize Hall]. f_equal.
      apply map_subseteq_size_eq; [|lia].
      apply map_subseteq_spec. intros k v Hk.
      specialize (Hall k v Hk). simpl in Hall.
      destruct (n !! k) as [a|]; [|done].
      by apply (IH k v Hk) in Hall as ->.
    + intros [= <-]. split; [done|].
      intros k v Hk. simpl. rewrite Hk. by apply (IH k v Hk).
  - rewrite IH. split; [by intros ->|by intros [= ->]].
  - rewrite String.eqb_eq. split; [by intros ->|by intros [= ->]].
Qed.

Lemma Equal_refl (t : attr_Type) : Equal t t = true.
Proof. by apply Equal_spec. Qed.

Lemma DeepEqual_spec (x y : attr_Type) : DeepEqual x y = true ↔ x = y.
Proof. apply Equal_spec. Qed.

(** ** Diagnostics *)

Lemma Severity_eqb_spec (a b : Severity) : Severity_eqb a b = true ↔ a = b.
Proof. by destruct a, b. Qed.

Lemma Diagnostic_Equal_severity (d d' : Diagnostic) :
  Diagnostic_Equal d d' = true → severity d = severity d'.
Proof.
  unfold Diagnostic_Equal. rewrite !andb_true_iff, Severity_eqb_spec. tauto.
Qed.

Lemma HasError_app (a b : Diagnostics) :
  HasError (a ++ b) = HasError a || HasError b.
Proof. apply existsb_app. Qed.

Lemma HasError_Contains (diags : Diagnostics) (d : Diagnostic) :
  Contains diags d = true → severity d = SeverityError → HasError diags = true.
Proof.
  unfold Contains, HasError. rewrite !existsb_exists.
  intros (d' & Hd' & Heq) Hsev. exists d'. split; [done|].
  apply Diagnostic_Equal_severity in Heq. rewrite Heq, Hsev. done.
Qed.

Lemma HasError_Append (diags ds : Diagnostics) :
  HasError (Append diags ds) = HasError diags || HasError ds.
Proof.
  unfold Append. revert diags.
  induction ds as [|d ds IH]; intros diags; simpl.
  - by rewrite orb_false_r.
  - rewrite IH. destruct (Contains diags d) eqn:Hc.
    + destruct (Severity_eqb (severity d) SeverityError) eqn:Hs; simpl; [|done].
      apply Severity_eqb_spec in Hs.
      by rewrite (HasError_Contains _ _ Hc Hs).
    + rewrite HasError_app. simpl. rewrite orb_false_r, orb_assoc. done.
Qed.

Lemma Append_nil_r (diags : Diagnostics) : Append diags [] = diags.
Proof. done. Qed.

Lemma AddError_nil (summary : string) (detail : Detail) :
  AddError [] summary detail = [NewErrorDiagnostic summary detail].
Proof. done. Qed.

Lemma HasError_AddError (diags : Diagnostics) (summary : string) (detail : Detail) :
  HasError (AddError diags summary detail) = true.
Proof.
  unfold AddError. rewrite HasError_Append. simpl. apply orb_true_r.
Qed.

(** ** Loops *)

(** An invariant for a [range] over a map whose body never breaks: [I]
    holds of the entries visited so far and the loop variables, [E] of what
    the body returns from the function; the body may rely on [Q] for the
    entry it visits. *)
Lemma range_map_ind {A S R : Type} (body : string → A → S → flow S R)
    (Q : string → A → Prop) (I : gmap string A → S → Prop) (E : R → Prop)
    (m : gmap string A) (s : S) :
  I ∅ s →
  (∀ k a m' s', m' !! k = None → Q k a → I m' s' →
     match body k a s' with
     | Next s'' => I (<[k:=a]> m') s''
     | Break _ => False
     | Exit r => E r
     end) →
  map_Forall Q m →
  match range_map body m s with
  | Done s' => I m s'
  | Left r => E r
  end.
Proof.
  intros Hinit Hstep HQ. unfold range_map.
  match goal with |- context [map_fold ?f ?b m] =>
    assert (match map_fold f b m with
            | Next s' => I m s'
            | Break _ => False
            | Exit r => E r
            end) as Hfold
  end.
  { revert HQ.
    apply (map_fold_weak_ind (λ acc m', map_Forall Q m' →
      match acc with
      | Next s' => I m' s'
      | Break _ => False
      | Exit r => E r
      end)).
    - done.
    - intros k a m' acc Hk IH HQ.
      apply map_Forall_insert in HQ as [HQk HQ]; [|done].
      specialize (IH HQ). destruct acc as [s'| |r]; [|done|done].
      by apply Hstep. }
  by destruct (map_fold _ _ m).
Qed.

Section collect.
Context {A : Type} (g : A → outcome (attr_Value * Diagnostics)).

(** The loop of the [ListType] case: every element whose conversion
    returns adds its value to [elems]. *)
Lemma range_from_collect (l : list A) (vals : list attr_Value) (i : nat)
    (elems : list attr_Value) (diags : Diagnostics) :
  Forall2 (λ a v, ∃ ds, g a = Return (v, ds)) l vals →
  ∃ diags',
    range_from (R:=outcome (attr_Value * Diagnostics))
      (λ _ a '(elems, diags),
         match g a with
         | Panic => Exit Panic
         | Return (v, ds) => Next ((elems ++ [v])%list, Append diags ds)
         end) i l (elems, diags)
    = Done ((elems ++ vals)%list, diags').
Proof.
  intros Hl. revert i elems diags.
  induction Hl as [|a v l vals [ds Ha] _ IH]; intros i elems diags; simpl.
  - exists diags. by rewrite app_nil_r.
  - rewrite Ha. destruct (IH (S i) (elems ++ [v])%list (Append diags ds))
      as [diags' ->].
    exists diags'. by rewrite <-app_assoc.
Qed.
End collect.

Section collect2.
Context {A B : Type} (g : A → B → outcome (attr_Value * Diagnostics)).

(** The loop of the [TupleType] case. *)
Lemma range_from2_collect (l : list A) (ts : list B) (vals : list attr_Value)
    (i : nat) (elems : list attr_Value) (diags : Diagnostics) :
  Forall3 (λ a t v, ∃ ds, g a t = Return (v, ds)) l ts vals →
  ∃ diags',
    range_from2 (R:=outcome (attr_Value * Diagnostics))
      (λ _ a t '(elems, diags),
         match g a t with
         | Panic => Exit Panic
         | Return (v, ds) => Next ((elems ++ [v])%list, Append diags ds)
         end) Panic i l ts (elems, diags)
    = Done ((elems ++ vals)%list, diags').
Proof.
  intros Hl. revert i elems diags.
  induction Hl as [|a t v l ts vals [ds Ha] _ IH]; intros i elems diags; simpl.
  - exists diags. by rewrite app_nil_r.
  - rewrite Ha. destruct (IH (S i) (elems ++ [v])%list (Append diags ds))
      as [diags' ->].
    exists diags'. by rewrite <-app_assoc.
Qed.
End collect2.

(** ** The checking constructors on well-typed elements *)

Lemma ListValue_typed (elementType : attr_Type) (elements : list attr_Value) :
  Forall (λ v, basetypes.Type_ v = Return elementType) elements →
  types.ListValue elementType elements
  = Return (basetypes.ListValue elements elementType ValueStateKnown, []).
Proof.
  intros Hty. unfold types.ListValue.
  match goal with |- context [range_from ?f 0 elements []] =>
    assert (∀ i, range_from f i elements [] = Done []) as ->; [|done]
  end.
  induction Hty as [|v vs Hv _ IH]; intros i; simpl; [done|].
  by rewrite Hv, Equal_refl, IH.
Qed.

Lemma TupleValue_typed (elementTypes : list attr_Type) (elements : list attr_Value) :
  Forall2 (λ v t, basetypes.Type_ v = Return t) elements elementTypes →
  types.TupleValue elementTypes elements
  = Return (basetypes.TupleValue elements elementTypes ValueStateKnown, []).
Proof.
  intros Hty. unfold types.TupleValue.
  rewrite (Forall2_length _ _ _ Hty), Nat.eqb_refl. simpl.
  match goal with |- context [range_from2 ?f Panic 0 elements elementTypes []] =>
    assert (∀ i, range_from2 f Panic i elements elementTypes [] = Done []) as ->;
      [|done]
  end.
  induction Hty as [|v t vs ts Hv _ IH]; intros i; simpl; [done|].
  by rewrite Hv, Equal_refl, IH.
Qed.

Lemma range_map_unchanged {A S R : Type} (body : string → A → S → flow S R)
    (m : gmap string A) (s : S) :
  (∀ k a, m !! k = Some a → body k a s = Next s) →
  range_map body m s = Done s.
Proof.
  intros Hbody.
  pose proof (range_map_ind body (λ k a, m !! k = Some a)
    (λ _ s', s' = s) (λ _, False) m s) as H.
  destruct (range_map body m s) as [s'|r].
  - rewrite H; [done|done| |by intros ??].
    intros k a m' s'' _ Hk ->. by rewrite Hbody.
  - destruct H; [done| |by intros ??].
    intros k a m' s'' _ Hk ->. by rewrite Hbody.
Qed.

Lemma ObjectValue_typed (attributeTypes : gmap string attr_Type)
    (attributes : gmap string attr_Value) :
  (∀ k, option_Forall2 (λ v t, basetypes.Type_ v = Return t)
          (attributes !! k) (attributeTypes !! k)) →
  types.ObjectValue attributeTypes attributes
  = Return (basetypes.ObjectValue attributes attributeTypes ValueStateKnown, []).
Proof.
  intros Hty. unfold types.ObjectValue.
  rewrite range_map_unchanged.
  - rewrite range_map_unchanged; [done|].
    intros k v Hk. specialize (Hty k). rewrite Hk in Hty.
    inversion Hty. done.
  - intros k t Hk. specialize (Hty k). rewrite Hk in Hty.
    inversion Hty as [v t' Hv Heq1 Heq2|]. by rewrite Hv, Equal_refl.
Qed.

(** ** [inferAttrType] on slices and maps *)

Lemma homogeneous_loop (firstType : attr_Type) (rest : list interface)
    (ts : list attr_Type) (i : nat) (b : bool) :
  infers rest ts →
  range_from (homogeneous_body firstType) i rest b
  = Done (if forallb (Equal firstType) ts then b else false).
Proof.
  intros Hts. revert i.
  induction Hts as [|x t rest ts Hx _ IH]; intros i; simpl; [done|].
  unfold homogeneous_body at 1. rewrite Hx. unfold DeepEqual.
  destruct (Equal firstType t); simpl; [apply IH|done].
Qed.

Lemma homogeneous_loop_inv (firstType : attr_Type) (rest : list interface)
    (i : nat) (b : bool) :
  match range_from (homogeneous_body firstType) i rest b with
  | Done true => ∃ ts, infers rest ts
  | Done false => True
  | Left r => ∃ err, r = Err err
  end.
Proof.
  revert i. induction rest as [|x rest IH]; intros i; simpl.
  - destruct b; [exists []; constructor|done].
  - unfold homogeneous_body at 1.
    destruct (inferAttrType x) as [t|err] eqn:Hx; [|by exists err].
    destruct (negb (DeepEqual firstType t)); [done|].
    specialize (IH (S i)).
    destruct (range_from (homogeneous_body firstType) (S i) rest b) as [[|]|r]; [|done|done].
    destruct IH as [ts Hts]. exists (t :: ts). by constructor.
Qed.

Lemma tuple_loop (l : list interface) (ts acc : list attr_Type) (i : nat) :
  infers l ts →
  range_from tuple_body i l acc = Done (acc ++ ts)%list.
Proof.
  intros Hts. revert i acc.
  induction Hts as [|x t l ts Hx _ IH]; intros i acc; simpl.
  - by rewrite app_nil_r.
  - unfold tuple_body at 1. rewrite Hx, IH. by rewrite <-app_assoc.
Qed.

Lemma tuple_loop_inv (l : list interface) (acc : list attr_Type) (i : nat) :
  match range_from tuple_body i l acc with
  | Done _ => ∃ ts, infers l ts
  | Left r => ∃ err, r = Err err
  end.
Proof.
  revert i acc. induction l as [|x l IH]; intros i acc; simpl.
  - exists []. constructor.
  - unfold tuple_body at 1.
    destruct (inferAttrType x) as [t|err] eqn:Hx; [|by exists err].
    specialize (IH (S i) (acc ++ [t])%list).
    destruct (range_from tuple_body (S i) l _) as [ts'|r]; [|done].
    destruct IH as [ts Hts]. exists (t :: ts). by constructor.
Qed.

Lemma inferAttrType_slice (v0 : interface) (rest : list interface)
    (t0 : attr_Type) (ts : list attr_Type) :
  inferAttrType v0 = Ok t0 →
  infers rest ts →
  inferAttrType (go_slice (v0 :: rest))
  = Ok (if forallb (Equal t0) ts then ListType t0 else TupleType (t0 :: ts)).
Proof.
  intros H0 Hts. simpl. rewrite H0.
  pose proof (homogeneous_loop t0 rest ts 1 true Hts) as Hh.
  unfold homogeneous_body in Hh. rewrite Hh. clear Hh.
  destruct (forallb (Equal t0) ts); [done|].
  pose proof (tuple_loop rest ts [t0] 1 Hts) as Ht.
  unfold tuple_body in Ht. by rewrite Ht.
Qed.

Lemma inferAttrType_slice_inv (l : list interface) (t : attr_Type) :
  inferAttrType (go_slice l) = Ok t → ∃ ts, infers l ts.
Proof.
  destruct l as [|v0 rest]; [exists []; constructor|].
  simpl. destruct (inferAttrType v0) as [t0|] eqn:H0; [|done].
  pose proof (homogeneous_loop_inv t0 rest 1 true) as Hh.
  unfold homogeneous_body in Hh. simpl in Hh.
  destruct (range_from _ 1 rest true) as [[|]|r].
  - destruct Hh as [ts Hts]. intros _. exists (t0 :: ts). by constructor.
  - pose proof (tuple_loop_inv (v0 :: rest) [] 0) as Ht.
    unfold tuple_body in Ht. simpl in Ht.
    rewrite H0 in Ht.
    destruct (range_from _ 1 rest [t0]) as [ts'|r]; [done|].
    destruct Ht as [err ->]. done.
  - destruct Hh as [err ->]. done.
Qed.

Lemma inferAttrType_map (m : gmap string interface) :
  match inferAttrType (go_map m) with
  | Ok t =>
      ∃ ats, t = ObjectType ats ∧
        ∀ k, option_Forall2 (λ x ty, inferAttrType x = Ok ty) (m !! k) (ats !! k)
  | Err _ => ∃ k x err, m !! k = Some x ∧ inferAttrType x = Err err
  end.
Proof.
  simpl.
  match goal with |- context [range_map ?f m ∅] =>
    pose proof (range_map_ind f (λ k x, m !! k = Some x)
      (λ m' ats, ∀ k,
         option_Forall2 (λ x ty, inferAttrType x = Ok ty) (m' !! k) (ats !! k))
      (λ r, ∃ k x err err', r = Err err' ∧ m !! k = Some x ∧
                            inferAttrType x = Err err) m ∅) as H
  end.
  lapply H; [clear H; intros H|intros k; rewrite !lookup_empty; constructor].
  lapply H; [clear H; intros H|clear H].
  - specialize (H (λ _ _ Hx, Hx)).
    destruct (range_map _ m ∅) as [ats|r]; [by exists ats|].
    destruct H as (k & x & err & err' & -> & Hk & Hx). by exists k, x, err.
  - intros k x m' ats' _ Hk IH.
    destruct (inferAttrType x) as [ty|err] eqn:Hx.
    + intros k'. rewrite !lookup_insert. case_decide; [by constructor|apply IH].
    + by exists k, x, err, (error_inferring_key k err).
Qed.

(** ** Converting a value against its inferred type *)

Lemma convertToAttrValue_nil (t : attr_Type) :
  convertToAttrValue go_nil t = Return (types.StringNull, []).
Proof. by destruct t. Qed.

Lemma is_json_map (m : gmap string interface) :
  is_json (go_map m) = true ↔ map_Forall (λ _ x, is_json x = true) m.
Proof. simpl. apply (map_fold_andb (λ _ x, is_json x)). Qed.

Lemma is_json_slice (l : list interface) :
  is_json (go_slice l) = true ↔ Forall (λ x, is_json x = true) l.
Proof.
  simpl. induction l as [|x l IH]; simpl.
  - split; [constructor|done].
  - rewrite andb_true_iff, IH, Forall_cons. done.
Qed.

Lemma converted_elements (l : list interface) (ts : list attr_Type) :
  Forall converts_well l → infers l ts →
  ∃ vals, Forall3 converted l ts vals.
Proof.
  intros Hl Hts. induction Hts as [|x t l ts Hx _ IH].
  - exists []. constructor.
  - apply Forall_cons in Hl as [Hwell Hl].
    destruct (Hwell t Hx) as [v Hv], (IH Hl) as [vals Hvals].
    exists (v :: vals). by constructor.
Qed.

Lemma Forall3_converted_same (l : list interface) (ts : list attr_Type)
    (vals : list attr_Value) (t0 : attr_Type) :
  Forall3 converted l ts vals → forallb (Equal t0) ts = true →
  Forall2 (λ x v, converted x t0 v) l vals.
Proof.
  induction 1 as [|x t v l ts vals Hx _ IH]; simpl; [constructor|].
  rewrite andb_true_iff, Equal_spec. intros [-> Hts]. constructor; auto.
Qed.

Lemma Forall3_converted_mirrors (l : list interface) (ts : list attr_Type)
    (vals : list attr_Value) :
  Forall3 converted l ts vals → Forall (λ x, is_json x = true) l →
  Forall2 mirrors l vals.
Proof.
  induction 1 as [|x t v l ts vals (ds & _ & _ & Hx) _ IH]; [constructor|].
  intros [Hj Hl]%Forall_cons. constructor; [by apply Hx|by apply IH].
Qed.

(** A list is built from the values of all its elements as soon as each
    conversion returns a value of the element type, whatever diagnostics
    come with it. *)
Lemma convert_list_elements (ElemType : attr_Type) (slice : list interface)
    (vals : list attr_Value) :
  Forall2 (λ elem v, ∃ ds, convertToAttrValue elem ElemType = Return (v, ds) ∧
                           basetypes.Type_ v = Return ElemType) slice vals →
  convertToAttrValue (go_slice slice) (ListType ElemType)
  = Return (basetypes.ListValue vals ElemType ValueStateKnown, []).
Proof.
  intros Hall.
  destruct (range_from_collect (λ a, convertToAttrValue a ElemType)
    slice vals 0 [] []) as [diags' Hloop].
  { eapply Forall2_impl; [exact Hall|]. intros x v (ds & Hx & _). by exists ds. }
  change (convertToAttrValue (go_slice slice) (ListType ElemType)) with
    (match range_from (R:=outcome (attr_Value * Diagnostics))
       (λ _ a '(elems, diags),
          match convertToAttrValue a ElemType with
          | Panic => Exit Panic
          | Return (v, ds) => Next ((elems ++ [v])%list, Append diags ds)
          end) 0 slice ([], []) with
     | Left r => r
     | Done (elems, _) => types.ListValue ElemType elems
     end).
  rewrite Hloop. apply ListValue_typed.
  eapply Forall2_Forall_r; [exact Hall|].
  apply Forall_true. by intros x v (ds & _ & Hty).
Qed.

Lemma convert_tuple_elements (ElemTypes : list attr_Type) (slice : list interface)
    (vals : list attr_Value) :
  Forall3 (λ elem t v, ∃ ds, convertToAttrValue elem t = Return (v, ds) ∧
                             basetypes.Type_ v = Return t) slice ElemTypes vals →
  convertToAttrValue (go_slice slice) (TupleType ElemTypes)
  = Return (basetypes.TupleValue vals ElemTypes ValueStateKnown, []).
Proof.
  intros Hall.
  destruct (range_from2_collect convertToAttrValue slice ElemTypes vals 0 [] [])
    as [diags' Hloop].
  { eapply Forall3_impl; [exact Hall|]. intros x t v (ds & Hx & _). by exists ds. }
  assert (length slice = length ElemTypes) as Hlen.
  { clear Hloop. induction Hall; simpl; congruence. }
  change (convertToAttrValue (go_slice slice) (TupleType ElemTypes)) with
    (if negb (length slice =? length ElemTypes)%nat then
       Return (types.TupleNull ElemTypes,
               AddError [] "Conversion Error" (Text "tuple length mismatch"))
     else
       match range_from2 (R:=outcome (attr_Value * Diagnostics))
          (λ _ a t '(elems, diags),
             match convertToAttrValue a t with
             | Panic => Exit Panic
             | Return (v, ds) => Next ((elems ++ [v])%list, Append diags ds)
             end) Panic 0 slice ElemTypes ([], []) with
       | Left r => r
       | Done (elems, _) => types.TupleValue ElemTypes elems
       end).
  rewrite Hlen, Nat.eqb_refl. simpl negb. cbv iota.
  rewrite Hloop. apply TupleValue_typed.
  clear Hloop Hlen. induction Hall as [|x t v l ts vs (ds & _ & Hty) _ IH];
    by constructor.
Qed.

Lemma convert_inferred_slice (l : list interface) :
  Forall converts_well l → converts_well (go_slice l).
Proof.
  intros IH t Ht.
  destruct (inferAttrType_slice_inv l t Ht) as [ts Hts].
  destruct (converted_elements l ts IH Hts) as [vals Hvals].
  destruct Hts as [|v0 t0 rest ts H0 Hts].
  { injection Ht as <-. exists (basetypes.ListValue [] DynamicType ValueStateKnown).
    exists []. split; [done|]. split; [done|].
    intros _. split; [done|]. by repeat constructor. }
  rewrite (inferAttrType_slice v0 rest t0 ts H0 Hts) in Ht.
  destruct (forallb (Equal t0) ts) eqn:Hsame; injection Ht as <-.
  - assert (Forall2 (λ x v, converted x t0 v) (v0 :: rest) vals) as Hall.
    { apply (Forall3_converted_same _ (t0 :: ts)); [done|].
      simpl. by rewrite Equal_refl, Hsame. }
    exists (basetypes.ListValue vals t0 ValueStateKnown), [].
    split; [|split; [done|]].
    + apply convert_list_elements.
      eapply Forall2_impl; [exact Hall|].
      intros x v (ds & Hx & Hty & _). by exists ds.
    + intros Hjson%is_json_slice. split; [done|]. constructor.
      by apply (Forall3_converted_mirrors _ (t0 :: ts)).
  - exists (basetypes.TupleValue vals (t0 :: ts) ValueStateKnown), [].
    split; [|split; [done|]].
    + apply convert_tuple_elements.
      eapply Forall3_impl; [exact Hvals|].
      intros x t v (ds & Hx & Hty & _). by exists ds.
    + intros Hjson%is_json_slice. split; [done|]. constructor.
      by apply (Forall3_converted_mirrors _ (t0 :: ts)).
Qed.

Lemma convert_inferred_map (m : gmap string interface) :
  map_Forall (λ _, converts_well) m → converts_well (go_map m).
Proof.
  intros IH t Ht.
  pose proof (inferAttrType_map m) as Hm. rewrite Ht in Hm.
  destruct Hm as (ats & -> & Hrel).
  pose (body := λ (key : string) (expectedType : attr_Type)
                  '((objValues, diags) : gmap string attr_Value * Diagnostics),
          match convertToAttrValue (index m key) expectedType with
          | Panic => Exit (S:=gmap string attr_Value * Diagnostics) Panic
          | Return (v, ds) =>
              if HasError ds
              then Exit (Return (types.ObjectNull ats, Append diags ds))
              else Next (<[key:=v]> objValues, Append diags ds)
          end).
  assert (convertToAttrValue (go_map m) (ObjectType ats)
          = match range_map body ats (∅, []) with
            | Left r => r
            | Done (objValues, _) => types.ObjectValue ats objValues
            end) as Hconv by done.
  unfold converted. rewrite Hconv. clear Hconv.
  pose proof (range_map_ind body (λ k ty, ats !! k = Some ty)
      (λ ats' s, ∀ k,
         match ats' !! k with
         | None => s.1 !! k = None
         | Some ty =>
             ∃ v, s.1 !! k = Some v ∧ basetypes.Type_ v = Return ty ∧
                  (is_json (go_map m) = true →
                   ∃ x, m !! k = Some x ∧ mirrors x v)
         end)
      (λ r, ∃ diags, r = Return (types.ObjectNull ats, diags) ∧
                     is_json (go_map m) = false) ats (∅, [])) as H.
  lapply H; [clear H; intros H|intros k; by rewrite !lookup_empty].
  lapply H; [clear H; intros H|clear H].
  - specialize (H (λ _ _ Hx, Hx)).
    destruct (range_map body ats (∅, [])) as [[objValues diags]|r].
    + simpl in H.
      exists (basetypes.ObjectValue objValues ats ValueStateKnown), [].
      split; [|split; [done|]].
      * apply ObjectValue_typed. intros k. specialize (H k).
        destruct (ats !! k) as [ty|].
        -- destruct H as (v & -> & Hv & _). by constructor.
        -- rewrite H. constructor.
      * intros Hjson. split; [done|]. constructor. intros k.
        specialize (H k). specialize (Hrel k).
        destruct (ats !! k) as [ty|].
        -- destruct H as (v & -> & _ & Hv).
           destruct (Hv Hjson) as (x & -> & Hx). by constructor.
        -- rewrite H. inversion Hrel. constructor.
    + destruct H as (diags & -> & Hjson).
      exists (types.ObjectNull ats), diags. split; [done|]. split; [done|].
      intros Hjson'. exfalso. congruence.
  - intros k ty ats' [objValues diags] Hnew Hk Hinv.
    pose proof (Hrel k) as Hrelk. rewrite Hk in Hrelk.
    inversion Hrelk as [x ty' Hx Hmk Heq|]; subst ty'.
    symmetry in Hmk. unfold body, index. rewrite Hmk. simpl default.
    destruct (IH k x Hmk ty Hx) as (v & ds & -> & Hty & Hjson).
    destruct (HasError ds) eqn:Herr.
    + exists (Append diags ds). split; [done|].
      destruct (is_json (go_map m)) eqn:Hj; [|done].
      apply is_json_map in Hj. destruct (Hjson (Hj k x Hmk)) as [-> _]. done.
    + intros k'. rewrite lookup_insert. simpl. rewrite lookup_insert.
      case_decide.
      * subst k'. exists v. split; [done|]. split; [done|].
        intros Hj. exists x. split; [done|].
        apply is_json_map in Hj. by apply Hjson, (Hj k).
      * apply Hinv.
Qed.

Lemma convert_inferred (v : interface) : converts_well v.
Proof.
  induction v as [|b|k n|s|l IH|m IH|T] using interface_ind'.
  - intros t [= <-]. exists types.StringNull, []. repeat split; try done.
    by constructor.
  - intros t [= <-]. exists (types.BoolValue b), []. repeat split; try done.
    constructor.
  - intros t [= <-]. destruct k;
      try (exists types.NumberNull; eexists; split; [reflexivity|done]).
    exists (types.NumberValue n), []. repeat split; try done. constructor.
  - intros t [= <-]. exists (types.StringValue s), []. repeat split; try done.
    constructor.
  - by apply convert_inferred_slice.
  - by apply convert_inferred_map.
  - intros t [=].
Qed.

Lemma Forall_exists_infers (l : list interface) :
  Forall (λ x, ∃ t, inferAttrType x = Ok t) l → ∃ ts, infers l ts.
Proof.
  induction 1 as [|x l [t Hx] _ [ts Hts]].
  - exists []. constructor.
  - exists (t :: ts). by constructor.
Qed.

Lemma json_infers (v : interface) :
  is_json v = true → ∃ t, inferAttrType v = Ok t.
Proof.
  induction v as [|b|k n|s|l IH|m IH|T] using interface_ind';
    try (intros _; eexists; reflexivity).
  - intros Hl%is_json_slice.
    destruct (Forall_exists_infers l) as [ts Hts].
    { rewrite Forall_forall in *. intros x Hx. by apply IH, Hl. }
    destruct Hts as [|v0 t0 rest ts H0 Hts]; [by eexists|].
    eexists. by apply inferAttrType_slice.
  - intros Hm%is_json_map.
    pose proof (inferAttrType_map m) as H.
    destruct (inferAttrType (go_map m)) as [t|err]; [by exists t|].
    destruct H as (k & x & err' & Hk & Hx).
    destruct (IH k x Hk (Hm k x Hk)) as [t Ht]. congruence.
  - done.
Qed.

#[local] Open Scope string_scope.

(** ** The loop over the declared attributes of an object *)

Lemma convertToAttrValue_object (m : gmap string interface)
    (AttrTypes : gmap string attr_Type) :
  convertToAttrValue (go_map m) (ObjectType AttrTypes)
  = match range_map (object_body m AttrTypes) AttrTypes (∅, []) with
    | Left r => r
    | Done (objValues, _) => types.ObjectValue AttrTypes objValues
    end.
Proof. reflexivity. Qed.


(** ** What the conversions return *)

Lemma Forall_AddError (P : Diagnostic → Prop) (diags : Diagnostics)
    (summary : string) (detail : Detail) :
  Forall P diags → P (NewErrorDiagnostic summary detail) →
  Forall P (AddError diags summary detail).
Proof.
  intros Hdiags Hnew. unfold AddError, Append. simpl.
  destruct (Contains diags _); [done|].
  apply Forall_app. split; [done|by constructor].
Qed.

(** What a [range] over a map returns from the function is something its
    body returns. *)
Lemma range_map_left {A S R : Type} (body : string → A → S → flow S R)
    (E : R → Prop) (m : gmap string A) (s : S) :
  (∀ k a s', match body k a s' with
             | Exit r => E r
             | Break _ => False
             | Next _ => True
             end) →
  match range_map body m s with
  | Left r => E r
  | Done _ => True
  end.
Proof.
  intros Hbody.
  apply (range_map_ind body (λ _ _, True) (λ _ _, True) E m s); [done| |done].
  intros k a m' s' _ _ _. specialize (Hbody k a s'). by destruct (body k a s').
Qed.

Lemma ListValue_returns (elementType : attr_Type) (elements : list attr_Value)
    (v : attr_Value) (diags : Diagnostics) :
  types.ListValue elementType elements = Return (v, diags) →
  basetypes.Type_ v = Return (ListType elementType) ∧
  Forall (λ d, summary d = "Invalid List Element Type") diags.
Proof.
  unfold types.ListValue, types.finish.
  match goal with |- context [range_from ?f 0 elements []] =>
    assert (∀ i acc,
      Forall (λ d, summary d = "Invalid List Element Type") acc →
      match range_from f i elements acc with
      | Done diags => Forall (λ d, summary d = "Invalid List Element Type") diags
      | Left r => r = Panic
      end) as Hloop
  end.
  { induction elements as [|element elements IH]; intros i acc Hacc; simpl; [done|].
    destruct (basetypes.Type_ element) as [|ty]; [done|].
    destruct (Equal elementType ty); apply IH; [done|].
    by apply Forall_AddError. }
  specialize (Hloop 0 [] (Forall_nil_2 _)).
  destruct (range_from _ 0 elements []) as [cd|r].
  - destruct (HasError cd); intros [= <- <-]; (split; [done|]); [done|constructor].
  - by subst r.
Qed.




Section collect_inv.
Context {A : Type} (g : A → outcome (attr_Value * Diagnostics)).

(** The loop of the [ListType] case leaves the function only by a panic. *)
Lemma range_from_collect_left (l : list A) (i : nat)
    (s : list attr_Value * Diagnostics) :
  match range_from (R:=outcome (attr_Value * Diagnostics))
          (λ _ a '(elems, diags),
             match g a with
             | Panic => Exit Panic
             | Return (v, ds) => Next ((elems ++ [v])%list, Append diags ds)
             end) i l s with
  | Done _ => True
  | Left r => r = Panic
  end.
Proof.
  revert i s. induction l as [|a l IH]; intros i [elems diags]; simpl; [done|].
  destruct (g a) as [|[v ds]]; [done|]. apply IH.
Qed.
End collect_inv.

Section collect2_inv.
Context {A B : Type} (g : A → B → outcome (attr_Value * Diagnostics)).

Lemma range_from2_collect_left (l : list A) (ts : list B) (i : nat)
    (s : list attr_Value * Diagnostics) :
  match range_from2 (R:=outcome (attr_Value * Diagnostics))
          (λ _ a t '(elems, diags),
             match g a t with
             | Panic => Exit Panic
             | Return (v, ds) => Next ((elems ++ [v])%list, Append diags ds)
             end) Panic i l ts s with
  | Done _ => True
  | Left r => r = Panic
  end.
Proof.
  revert l i s. induction ts as [|t ts IH]; intros [|a l] i [elems diags];
    simpl; try done.
  destruct (g a t) as [|[v ds]]; [done|]. apply IH.
Qed.
End collect2_inv.




(** Whatever the elements and their diagnostics, the diagnostics that the
    conversion of a slice against a list type returns are those of
    [types.ListValue]; none of them is a "Conversion Error" of an
    element. *)
Lemma convert_list_diagnostics (ElemType : attr_Type) (slice : list interface)
    (v : attr_Value) (diags : Diagnostics) :
  convertToAttrValue (go_slice slice) (ListType ElemType) = Return (v, diags) →
  Forall (λ d, summary d = "Invalid List Element Type") diags.
Proof.
  change (convertToAttrValue (go_slice slice) (ListType ElemType)) with
    (match range_from (R:=outcome (attr_Value * Diagnostics))
       (λ _ a '(elems, diags),
          match convertToAttrValue a ElemType with
          | Panic => Exit Panic
          | Return (v, ds) => Next ((elems ++ [v])%list, Append diags ds)
          end) 0 slice ([], []) with
     | Left r => r
     | Done (elems, _) => types.ListValue ElemType elems
     end).
  pose proof (range_from_collect_left (λ a, convertToAttrValue a ElemType)
    slice 0 ([], [])) as Hloop.
  destruct (range_from _ 0 slice ([], [])) as [[elems ds]|r].
  - intros Hv. by apply ListValue_returns in Hv as [_ ?].
  - by subst r.
Qed.

(** ** The walk through the outputs *)

Lemma convertToAttrValue_nilable_returns (v : interface) :
  ∃ val ds,
    convertToAttrValue_nilable v (type_of_inferred (inferAttrType v))
    = Return (val, ds).
Proof.
  destruct (inferAttrType v) as [t|err] eqn:Hv; simpl.
  - destruct (convert_inferred v t Hv) as (val & ds & Hconv & _). by exists val, ds.
  - destruct v; by eexists _, _.
Qed.

Lemma walk_outputs_spec (outputs : gmap string interface) :
  map_Forall (λ _ output, is_map output = true) outputs →
  ∃ p, walk_outputs outputs = Done p ∧ walked outputs p.
Proof.
  intros Hmaps. unfold walk_outputs.
  match goal with |- context [range_map ?f outputs ?p0] =>
    pose proof (range_map_ind f (λ _ output, is_map output = true)
      walked (λ _, False) outputs p0) as H
  end.
  lapply H; [clear H; intros H|].
  2:{ intros x. simpl. by rewrite !lookup_empty. }
  lapply H; [clear H; intros H|clear H].
  - specialize (H Hmaps). destruct (range_map _ outputs _) as [p|r]; [|done].
    by exists p.
  - intros x output m' p Hnew Hmap Hinv.
    destruct output as [| | | | |myOutput|]; try done.
    destruct (convertToAttrValue_nilable_returns (index myOutput "value"))
      as (val & ds & Hconv).
    assert (output_converted (go_map myOutput) = val) as Hval.
    { unfold output_converted, output_type, output_value. simpl. by rewrite Hconv. }
    rewrite Hconv.
    destruct (is_false (index myOutput "sensitive")) eqn:Hsens;
      intros x'; destruct (Hinv x') as (H1 & H2 & H3 & H4); simpl;
      rewrite !lookup_insert; case_decide; subst; simpl;
      unfold output_sensitive; simpl; rewrite ?Hsens;
      try (rewrite Hnew in H3, H4; simpl in H3, H4); repeat split; done.
Qed.

Lemma json_output_converted (output : interface) :
  is_json_output output = true →
  ∃ t val,
    inferAttrType (output_value output) = Ok t ∧
    convertToAttrValue (output_value output) t = Return (val, []) ∧
    basetypes.Type_ val = Return t ∧
    output_type output = Some t ∧ output_converted output = val.
Proof.
  unfold is_json_output. rewrite andb_true_iff. intros [_ Hjson].
  destruct (json_infers _ Hjson) as [t Ht].
  destruct (convert_inferred _ t Ht) as (val & ds & Hconv & Hty & Hds).
  destruct (Hds Hjson) as [-> _]. exists t, val.
  unfold output_converted, output_type. rewrite Ht. simpl. by rewrite Hconv.
Qed.

Lemma ObjectValue_nilable_typed (attributeTypes : gmap string (option attr_Type))
    (attributes : gmap string attr_Value) :
  (∀ k, option_Forall2 (λ v ot, ∃ t, ot = Some t ∧ basetypes.Type_ v = Return t)
          (attributes !! k) (attributeTypes !! k)) →
  ObjectValue_nilable attributeTypes attributes
  = Return (basetypes.ObjectValue attributes (omap id attributeTypes)
              ValueStateKnown, []).
Proof.
  intros Hty. unfold ObjectValue_nilable. rewrite bool_decide_eq_true_2.
  - apply ObjectValue_typed. intros k. rewrite lookup_omap.
    destruct (Hty k) as [v ot (t & -> & Hv)|]; by constructor.
  - intros k ot Hk. specialize (Hty k). rewrite Hk in Hty.
    inversion Hty as [v ot' (t & -> & _) Heq1 Heq2|]. by eexists.
Qed.

Lemma is_false_index (m : gmap string interface) (key : string) :
  is_false (index m key) = true ↔ m !! key = Some (go_bool false).
Proof.
  unfold index. destruct (m !! key) as [[| [] | | | | |]|]; simpl; naive_solver.
Qed.

(** [Read] on outputs decoded from JSON: both objects are built, from the
    maps of the walk, and nothing is added to [resp.Diagnostics]. *)
Lemma Read_outputs_json (outputs : gmap string interface) (respDiags : Diagnostics) :
  map_Forall (λ _ output, is_json_output output = true) outputs →
  HasError respDiags = false →
  ∃ p,
    walked outputs p ∧
    Read_outputs outputs respDiags
    = Return (Some {|
        Values := types.DynamicValue
          (basetypes.ObjectValue (sensitiveValues p) (omap id (sensitiveTypes p))
             ValueStateKnown);
        NonSensitiveValues := types.DynamicValue
          (basetypes.ObjectValue (nonSensitiveValues p)
             (omap id (nonSensitiveTypes p)) ValueStateKnown) |},
      respDiags).
Proof.
  intros Hjson Herr.
  destruct (walk_outputs_spec outputs) as (p & Hwalk & Hp).
  { intros x o Hx. specialize (Hjson x o Hx). unfold is_json_output in Hjson.
    by apply andb_true_iff in Hjson as [? _]. }
  exists p. split; [done|]. unfold Read_outputs. rewrite Hwalk.
  rewrite !ObjectValue_nilable_typed; simpl.
  - by rewrite Herr.
  - intros x. destruct (Hp x) as (_ & _ & -> & ->).
    destruct (outputs !! x) as [o|] eqn:Hx; simpl; [|constructor].
    destruct (is_false (output_sensitive o)); [|constructor].
    destruct (json_output_converted o (Hjson x o Hx))
      as (t & val & _ & _ & Hty & -> & ->).
    constructor. by exists t.
  - intros x. destruct (Hp x) as (-> & -> & _ & _).
    destruct (outputs !! x) as [o|] eqn:Hx; simpl; [|constructor].
    destruct (json_output_converted o (Hjson x o Hx))
      as (t & val & _ & _ & Hty & -> & ->).
    constructor. by exists t.
Qed.

(** An output that is not a record makes [Read] return before it assigns
    anything, with [resp.Diagnostics] as they were. *)
Lemma Read_outputs_not_record (outputs : gmap string interface)
    (respDiags : Diagnostics) (x : string) (output : interface) :
  outputs !! x = Some output → is_map output = false →
  Read_outputs outputs respDiags = Return (None, respDiags).
Proof.
  intros Hx Hmap. unfold Read_outputs, walk_outputs.
  match goal with |- context [range_map ?f outputs ?p0] =>
    pose proof (range_map_ind f (λ _ _, True)
      (λ m' _, map_Forall (λ _ o, is_map o = true) m')
      (λ r, r = Return ()) outputs p0) as H
  end.
  lapply H; [clear H; intros H|apply map_Forall_empty].
  lapply H; [clear H; intros H|clear H].
  - specialize (H (λ _ _ _, Logic.I)).
    destruct (range_map _ outputs _) as [p|r].
    + specialize (H x output Hx). simpl in H. congruence.
    + by subst r.
  - intros k o m' p Hnew _ Hinv.
    destruct o as [| | | | |myOutput|]; try done.
    destruct (convertToAttrValue_nilable_returns (index myOutput "value"))
      as (val & ds & ->).
    destruct (is_false (index myOutput "sensitive"));
      by apply map_Forall_insert_2.
Qed.

(** On the nil type that the walk keeps for an output whose inference
    fails, [types.ObjectValue] panics. *)
Lemma Read_outputs_failing : Read_outputs failing_outputs [] = Panic.
Proof. vm_compute. reflexivity. Qed.

(** * The claims *)

(** ** C1: inference followed by conversion *)

(** C1.  For every decoded JSON value [v] (nil, bool, float64 number,
    string, slice, string-keyed map, at every depth), [inferAttrType]
    succeeds with a type [t], and [convertToAttrValue v t] returns with no
    diagnostic at all a value of type [t] whose shape mirrors [v]: the same
    kind at every level, as many elements in every sequence, the same key
    set in every object. *)
Theorem convert_inferred_json (v : interface) :
  is_json v = true →
  ∃ t val,
    inferAttrType v = Ok t ∧
    convertToAttrValue v t = Return (val, []) ∧
    basetypes.Type_ val = Return t ∧
    mirrors v val.
Proof.
  intros Hjson.
  destruct (json_infers v Hjson) as [t Ht].
  destruct (convert_inferred v t Ht) as (val & ds & Hconv & Hty & Hds).
  destruct (Hds Hjson) as [-> Hmirror]. by exists t, val.
Qed.

Lemma convert_inferred_json_witness :
  ∃ t val,
    inferAttrType example_document = Ok t ∧
    convertToAttrValue example_document t = Return (val, []) ∧
    basetypes.Type_ val = Return t ∧
    mirrors example_document val.
Proof. apply (convert_inferred_json example_document). vm_compute. reflexivity. Defined.

(** ** C2: the two projections *)

(** C2.  Let every output be a record of a decoded JSON value and a boolean
    [sensitive] flag, and let [resp.Diagnostics] hold no error before the
    walk.  [Read] then assigns the two objects and adds no diagnostic.  The
    full object has an entry for every output, with the inferred type and
    the converted value of the output; the redacted object has entries for
    exactly the outputs whose flag is false; and every entry of the redacted
    object is an entry of the full object with the same type and value. *)
Theorem Read_projections (outputs : gmap string interface) (respDiags : Diagnostics) :
  map_Forall (λ _ output, is_output_pair output = true) outputs →
  HasError respDiags = false →
  ∃ fullT fullV redT redV,
    Read_outputs outputs respDiags
    = Return (Some {|
        Values := types.DynamicValue
                    (basetypes.ObjectValue fullV fullT ValueStateKnown);
        NonSensitiveValues := types.DynamicValue
                    (basetypes.ObjectValue redV redT ValueStateKnown) |},
      respDiags) ∧
    dom fullT = dom outputs ∧ dom fullV = dom outputs ∧
    (∀ x output, outputs !! x = Some output →
       ∃ t v,
         inferAttrType (output_value output) = Ok t ∧
         convertToAttrValue (output_value output) t = Return (v, []) ∧
         fullT !! x = Some t ∧ fullV !! x = Some v) ∧
    (∀ x, x ∈ dom redV ↔
          ∃ output, outputs !! x = Some output ∧
                    output_sensitive output = go_bool false) ∧
    dom redT = dom redV ∧
    (∀ x t v, redT !! x = Some t → redV !! x = Some v →
              fullT !! x = Some t ∧ fullV !! x = Some v).
Proof.
  intros Hpairs Herr.
  assert (map_Forall (λ _ output, is_json_output output = true) outputs) as Hjson.
  { intros x o Hx. specialize (Hpairs x o Hx). unfold is_output_pair in Hpairs.
    by apply andb_true_iff in Hpairs as [? _]. }
  destruct (Read_outputs_json outputs respDiags Hjson Herr) as (p & Hp & HRead).
  exists (omap id (sensitiveTypes p)), (sensitiveValues p),
    (omap id (nonSensitiveTypes p)), (nonSensitiveValues p).
  split; [done|].
  assert (∀ x, omap id (sensitiveTypes p) !! x = outputs !! x ≫= output_type) as HfullT.
  { intros x. rewrite lookup_omap. destruct (Hp x) as (-> & _).
    by destruct (outputs !! x). }
  assert (∀ x, omap id (nonSensitiveTypes p) !! x
               = outputs !! x ≫= λ o,
                   if is_false (output_sensitive o) then output_type o else None)
    as HredT.
  { intros x. rewrite lookup_omap. destruct (Hp x) as (_ & _ & -> & _).
    destruct (outputs !! x) as [o|]; simpl; [|done].
    by destruct (is_false (output_sensitive o)). }
  assert (∀ x o, outputs !! x = Some o →
            is_false (output_sensitive o) = true ↔
            output_sensitive o = go_bool false) as Hflag.
  { intros x o Hx. specialize (Hpairs x o Hx). unfold is_output_pair in Hpairs.
    apply andb_true_iff in Hpairs as [_ Hb].
    destruct (output_sensitive o) as [|[]| | | | |]; naive_solver. }
  split; [|split; [|split; [|split; [|split]]]].
  - apply set_eq. intros x. rewrite !elem_of_dom, HfullT.
    destruct (outputs !! x) as [o|] eqn:Hx; simpl; [|done].
    destruct (json_output_converted o (Hjson x o Hx)) as (t & v & _ & _ & _ & -> & _).
    done.
  - apply set_eq. intros x. rewrite !elem_of_dom.
    destruct (Hp x) as (_ & -> & _). by rewrite fmap_is_Some.
  - intros x o Hx.
    destruct (json_output_converted o (Hjson x o Hx))
      as (t & v & Ht & Hv & _ & Hot & Hov).
    exists t, v. rewrite HfullT. destruct (Hp x) as (_ & -> & _).
    rewrite Hx. simpl. by rewrite Hot, Hov.
  - intros x. rewrite elem_of_dom. destruct (Hp x) as (_ & _ & _ & ->). split.
    + destruct (outputs !! x) as [o|] eqn:Hx; simpl; [|by intros []].
      destruct (is_false (output_sensitive o)) eqn:Hs; [|by intros []].
      intros _. exists o. split; [done|]. by apply (Hflag x).
    + intros (o & Hx & Hs). rewrite Hx. simpl.
      apply (Hflag x o Hx) in Hs. by rewrite Hs.
  - apply set_eq. intros x. rewrite !elem_of_dom, HredT.
    destruct (Hp x) as (_ & _ & _ & ->).
    destruct (outputs !! x) as [o|] eqn:Hx; simpl; [|done].
    destruct (is_false (output_sensitive o)); [|done].
    destruct (json_output_converted o (Hjson x o Hx)) as (t & v & _ & _ & _ & -> & _).
    split; by eauto.
  - intros x t v HT HV. rewrite HredT in HT. rewrite HfullT.
    destruct (Hp x) as (_ & -> & _ & Hr). rewrite Hr in HV.
    destruct (outputs !! x) as [o|]; simpl in *; [|done].
    by destruct (is_false (output_sensitive o)).
Qed.

Lemma Read_projections_witness :
  ∃ fullT fullV redT redV,
    Read_outputs example_outputs []
    = Return (Some {|
        Values := types.DynamicValue
                    (basetypes.ObjectValue fullV fullT ValueStateKnown);
        NonSensitiveValues := types.DynamicValue
                    (basetypes.ObjectValue redV redT ValueStateKnown) |},
      []) ∧
    dom fullT = dom example_outputs ∧ dom fullV = dom example_outputs ∧
    (∀ x output, example_outputs !! x = Some output →
       ∃ t v,
         inferAttrType (output_value output) = Ok t ∧
         convertToAttrValue (output_value output) t = Return (v, []) ∧
         fullT !! x = Some t ∧ fullV !! x = Some v) ∧
    (∀ x, x ∈ dom redV ↔
          ∃ output, example_outputs !! x = Some output ∧
                    output_sensitive output = go_bool false) ∧
    dom redT = dom redV ∧
    (∀ x t v, redT !! x = Some t → redV !! x = Some v →
              fullT !! x = Some t ∧ fullV !! x = Some v).
Proof.
  apply (Read_projections example_outputs []); [|reflexivity].
  apply map_Forall_insert_2; [vm_compute; reflexivity|].
  apply map_Forall_insert_2; [vm_compute; reflexivity|].
  apply map_Forall_empty.
Defined.

(** ** C3: inference on ordered sequences *)

(** C3.  Let the elements of a slice be inferred as the types [ts].  The
    empty slice is inferred as a list of [DynamicType]; a non-empty slice
    all of whose element types equal the first one, [t0], as a list of
    [t0]; a non-empty slice with an element type different from the first
    one as the tuple of the element types [ts], index by index. *)
Theorem inferAttrType_sequence (l : list interface) (ts : list attr_Type) :
  infers l ts →
  (l = [] → inferAttrType (go_slice l) = Ok (ListType DynamicType)) ∧
  (∀ t0, head ts = Some t0 → Forall (eq t0) ts →
     inferAttrType (go_slice l) = Ok (ListType t0)) ∧
  (∀ t0, head ts = Some t0 → ¬ Forall (eq t0) ts →
     inferAttrType (go_slice l) = Ok (TupleType ts)).
Proof.
  intros Hts. split; [by intros ->|].
  destruct Hts as [|v0 t0 rest ts H0 Hts]; [by split; intros t0 [=]|].
  rewrite (inferAttrType_slice v0 rest t0 ts H0 Hts).
  assert (forallb (Equal t0) ts = true ↔ Forall (eq t0) ts) as Hsame.
  { clear. induction ts as [|t ts IH]; simpl.
    - split; [constructor|done].
    - rewrite andb_true_iff, Forall_cons, IH, Equal_spec. done. }
  split; intros t0' [= <-] Hall.
  - apply Forall_cons in Hall as [_ Hall]. apply Hsame in Hall. by rewrite Hall.
  - destruct (forallb (Equal t0) ts) eqn:Hb; [|done].
    destruct Hall. constructor; [done|by apply Hsame].
Qed.

Lemma inferAttrType_sequence_witness :
  inferAttrType (go_slice [go_num Float64 1%Qc; go_string "a"; go_bool true])
  = Ok (TupleType [NumberType; StringType; BoolType]).
Proof.
  refine (proj2 (proj2 (inferAttrType_sequence
    [go_num Float64 1%Qc; go_string "a"; go_bool true]
    [NumberType; StringType; BoolType] _)) NumberType _ _).
  - repeat constructor.
  - reflexivity.
  - intros H. inversion H as [|? ? _ H']. inversion H' as [|? ? Heq _].
    discriminate Heq.
Defined.

(** ** C4: converting nil *)

(** C4, as the code has it.  Whatever the target type, converting nil
    returns no diagnostic and the null string value [types.StringNull],
    whose type is [StringType]. *)
Theorem convert_nil (t : attr_Type) :
  convertToAttrValue go_nil t = Return (types.StringNull, []) ∧
  basetypes.Type_ types.StringNull = Return StringType ∧
  basetypes.state types.StringNull = Some ValueStateNull.
Proof. by rewrite convertToAttrValue_nil. Qed.

(** Against [BoolType], the null returned for nil is not of type
    [BoolType]. *)
Lemma convert_nil_not_typed_as_target :
  ¬ ∃ v, convertToAttrValue go_nil BoolType = Return (v, []) ∧
         basetypes.Type_ v = Return BoolType.
Proof. intros (v & [= <-] & [=]). Qed.

(** ** C5: inferring nil *)

(** C5, as the code has it.  The type inferred for nil is [StringType],
    the type inferred for every string. *)
Theorem inferAttrType_nil :
  inferAttrType go_nil = Ok StringType ∧
  ∀ s, inferAttrType go_nil = inferAttrType (go_string s).
Proof. split; [reflexivity|]. intros s. reflexivity. Qed.

(** The type inferred for nil is one of the scalar types of the other
    kinds, not a type of its own. *)
Lemma inferAttrType_nil_not_own_kind :
  ¬ ∃ t, inferAttrType go_nil = Ok t ∧
         t ≠ BoolType ∧ t ≠ NumberType ∧ t ≠ StringType.
Proof. intros (t & [= <-] & _ & _ & H). by apply H. Qed.

(** ** C6: objects are all or nothing, lists and tuples are not *)



(** ** C7: the diagnostics of list elements *)

(** C7, at the slice [["a"]] against a list of numbers.  The element
    fails with the diagnostic "expected number"; the list is built with the
    null placeholder for it and is returned without any diagnostic.  In
    general, every diagnostic that the conversion of a slice against a list
    type returns is an "Invalid List Element Type" of [types.ListValue],
    never the "Conversion Error" of an element. *)
Theorem convert_list_drops_element_diagnostics :
  convertToAttrValue (go_string "a") NumberType
  = Return (types.NumberNull,
            [NewErrorDiagnostic "Conversion Error" (Text "expected number")]) ∧
  convertToAttrValue (go_slice [go_string "a"]) (ListType NumberType)
  = Return (basetypes.ListValue [types.NumberNull] NumberType ValueStateKnown, []) ∧
  ∀ ElemType slice v diags,
    convertToAttrValue (go_slice slice) (ListType ElemType) = Return (v, diags) →
    Forall (λ d, summary d = "Invalid List Element Type") diags.
Proof.
  split; [reflexivity|]. split; [reflexivity|].
  apply convert_list_diagnostics.
Qed.

(** ** C8: an output whose inference fails *)




(** ** C9: types without a conversion *)

(** C9, as the code has it.  Against a type without a conversion, a value
    other than nil is converted to the nil [attr.Value], no value at all,
    with the one error diagnostic "unsupported type". *)
Theorem convert_unsupported (raw : interface) (t : attr_Type) :
  raw ≠ go_nil → unsupported t = true →
  convertToAttrValue raw t
  = Return (basetypes.nil,
            [NewErrorDiagnostic "Conversion Error"
               (Text ("unsupported type " ++ type_name t))]).
Proof. intros Hraw Ht. by destruct t, raw. Qed.

Lemma convert_unsupported_witness :
  convertToAttrValue (go_bool true) DynamicType
  = Return (basetypes.nil,
            [NewErrorDiagnostic "Conversion Error"
               (Text "unsupported type basetypes.DynamicType")]).
Proof. apply (convert_unsupported (go_bool true) DynamicType); [discriminate|reflexivity]. Defined.

(** Against [DynamicType] the conversion of [true] returns no null
    placeholder. *)
Lemma convert_unsupported_no_placeholder :
  ¬ ∃ v ds, convertToAttrValue (go_bool true) DynamicType = Return (v, ds) ∧
            basetypes.state v = Some ValueStateNull.
Proof. intros (v & ds & [= <- _] & [=]). Qed.

(** ** C10: the [sensitive] field decides by being the boolean false *)

(** C10.  Let every output be a record with a decoded JSON value, and let
    [resp.Diagnostics] hold no error before the walk.  [Read] assigns the
    two objects; every output is in the full object, and an output is in the
    redacted object exactly when its record binds ["sensitive"] to the
    boolean false: not when the field is absent, nil, true or of another
    kind. *)
Theorem redacted_iff_sensitive_false (outputs : gmap string interface)
    (respDiags : Diagnostics) :
  map_Forall (λ _ output, is_json_output output = true) outputs →
  HasError respDiags = false →
  ∃ fullT fullV redT redV,
    Read_outputs outputs respDiags
    = Return (Some {|
        Values := types.DynamicValue
                    (basetypes.ObjectValue fullV fullT ValueStateKnown);
        NonSensitiveValues := types.DynamicValue
                    (basetypes.ObjectValue redV redT ValueStateKnown) |},
      respDiags) ∧
    ∀ x myOutput, outputs !! x = Some (go_map myOutput) →
      x ∈ dom fullV ∧ x ∈ dom fullT ∧
      (x ∈ dom redV ↔ myOutput !! "sensitive" = Some (go_bool false)) ∧
      (x ∈ dom redT ↔ myOutput !! "sensitive" = Some (go_bool false)) ∧
      (myOutput !! "sensitive" = None → x ∉ dom redV) ∧
      (∀ s, myOutput !! "sensitive" = Some s → s ≠ go_bool false → x ∉ dom redV).
Proof.
  intros Hjson Herr.
  destruct (Read_outputs_json outputs respDiags Hjson Herr) as (p & Hp & HRead).
  exists (omap id (sensitiveTypes p)), (sensitiveValues p),
    (omap id (nonSensitiveTypes p)), (nonSensitiveValues p).
  split; [done|]. intros x myOutput Hx.
  destruct (json_output_converted _ (Hjson x _ Hx)) as (t & v & _ & _ & _ & Hot & _).
  destruct (Hp x) as (HfT & HfV & HrT & HrV).
  rewrite Hx in HfT, HfV, HrT, HrV. simpl in HfT, HfV, HrT, HrV.
  unfold output_sensitive in HrT, HrV. simpl in HrT, HrV.
  pose proof (is_false_index myOutput "sensitive") as Hs.
  assert (x ∈ dom (nonSensitiveValues p) ↔
          myOutput !! "sensitive" = Some (go_bool false)) as HredV.
  { rewrite elem_of_dom, HrV, <-Hs.
    destruct (is_false (index myOutput "sensitive")); simpl.
    - split; [done|by eauto].
    - split; [by intros []|done]. }
  assert (x ∈ dom (omap id (nonSensitiveTypes p)) ↔
          myOutput !! "sensitive" = Some (go_bool false)) as HredT.
  { rewrite elem_of_dom, lookup_omap, HrT, <-Hs.
    destruct (is_false (index myOutput "sensitive")); simpl.
    - rewrite Hot. split; [done|by eauto].
    - split; [by intros []|done]. }
  split; [by rewrite elem_of_dom, HfV|].
  split; [rewrite elem_of_dom, lookup_omap, HfT; simpl; by rewrite Hot|].
  split; [done|]. split; [done|]. split.
  - intros Hnone HIn. apply HredV in HIn. congruence.
  - intros s Hsome Hne HIn. apply HredV in HIn. congruence.
Qed.

Lemma redacted_iff_sensitive_false_witness :
  ∃ fullT fullV redT redV,
    Read_outputs example_flags []
    = Return (Some {|
        Values := types.DynamicValue
                    (basetypes.ObjectValue fullV fullT ValueStateKnown);
        NonSensitiveValues := types.DynamicValue
                    (basetypes.ObjectValue redV redT ValueStateKnown) |},
      []) ∧
    ∀ x myOutput, example_flags !! x = Some (go_map myOutput) →
      x ∈ dom fullV ∧ x ∈ dom fullT ∧
      (x ∈ dom redV ↔ myOutput !! "sensitive" = Some (go_bool false)) ∧
      (x ∈ dom redT ↔ myOutput !! "sensitive" = Some (go_bool false)) ∧
      (myOutput !! "sensitive" = None → x ∉ dom redV) ∧
      (∀ s, myOutput !! "sensitive" = Some s → s ≠ go_bool false → x ∉ dom redV).
Proof.
  apply (redacted_iff_sensitive_false example_flags []); [|reflexivity].
  repeat (apply map_Forall_insert_2; [vm_compute; reflexivity|]).
  apply map_Forall_empty.
Defined.

(** * Further properties of the code *)

(** ** When [inferAttrType] fails, and what it returns *)

Lemma forallb_Forall {A : Type} (f : A → bool) (l : list A) :
  forallb f l = true ↔ Forall (λ x, f x = true) l.
Proof.
  induction l as [|x l IH]; simpl.
  - split; [constructor|done].
  - rewrite andb_true_iff, IH, Forall_cons. done.
Qed.

Lemma infers_Forall (l : list interface) (ts : list attr_Type) :
  infers l ts → Forall (λ x, ∃ t, inferAttrType x = Ok t) l.
Proof. induction 1 as [|x t l ts Hx _ IH]; constructor; by eauto. Qed.

Lemma inferable_infers (v : interface) :
  inferable v = true ↔ ∃ t, inferAttrType v = Ok t.
Proof.
  induction v as [|b|k n|s|l IH|m IH|T] using interface_ind';
    try (split; [intros _; eexists; reflexivity|done]).
  - change (inferable (go_slice l)) with (forallb inferable l).
    rewrite forallb_Forall. split.
    + intros Hl. destruct (Forall_exists_infers l) as [ts Hts].
      { rewrite Forall_forall in *. intros x Hx. by apply IH, Hl. }
      destruct Hts as [|v0 t0 rest ts H0 Hts]; [by eexists|].
      eexists. by apply inferAttrType_slice.
    + intros [t Ht]. destruct (inferAttrType_slice_inv l t Ht) as [ts Hts].
      apply infers_Forall in Hts.
      rewrite Forall_forall in *. intros x Hx. by apply IH, Hts.
  - change (inferable (go_map m)) with
      (map_fold (λ _ x acc, acc && inferable x) true m).
    rewrite (map_fold_andb (λ _ x, inferable x)).
    pose proof (inferAttrType_map m) as H. split.
    + intros Hm. destruct (inferAttrType (go_map m)) as [t|err]; [by exists t|].
      destruct H as (k & x & err' & Hk & Hx).
      specialize (Hm k x Hk). simpl in Hm.
      apply (IH k x Hk) in Hm. destruct Hm as [t Ht]. congruence.
    + intros [t Ht]. rewrite Ht in H. destruct H as (ats & -> & Hrel).
      intros k x Hk. apply (IH k x Hk). specialize (Hrel k). rewrite Hk in Hrel.
      inversion Hrel. by eexists.
  - split; [done|by intros [t [=]]].
Qed.

(** X1.  [inferAttrType] succeeds exactly on the values that hold, at no
    depth, a value of a dynamic type other than nil, bool, the listed
    numeric types, string, [[]interface{}] and [map[string]interface{}];
    on any other value it returns an error and no type. *)
Theorem inferAttrType_succeeds_iff (v : interface) :
  ((∃ t, inferAttrType v = Ok t) ↔ inferable v = true) ∧
  ((∃ err, inferAttrType v = Err err) ↔ inferable v = false).
Proof.
  pose proof (inferable_infers v) as H. split; [by symmetry|].
  destruct (inferAttrType v) as [t|err] eqn:Hv.
  - assert (inferable v = true) as -> by (apply H; by eexists).
    split; [by intros [err [=]]|done].
  - destruct (inferable v); [|split; [done|by eexists]].
    destruct (proj1 H eq_refl) as [t [=]].
Qed.

Lemma inferred_shape_list (t : attr_Type) :
  inferred_shape t = true → inferred_shape (ListType t) = true.
Proof. by destruct t. Qed.

Lemma inferAttrType_inferred_shape (v : interface) (t : attr_Type) :
  inferAttrType v = Ok t → inferred_shape t = true.
Proof.
  revert t.
  induction v as [|b|k n|s|l IH|m IH|T] using interface_ind'; intros t;
    try by intros [= <-].
  - intros Ht. destruct (inferAttrType_slice_inv l t Ht) as [ts Hts].
    destruct Hts as [|v0 t0 rest ts H0 Hts]; [by injection Ht as <-|].
    rewrite (inferAttrType_slice v0 rest t0 ts H0 Hts) in Ht. injection Ht as <-.
    apply Forall_cons in IH as [IH0 IHrest].
    destruct (forallb (Equal t0) ts) eqn:Hall; [by apply inferred_shape_list, IH0|].
    change (inferred_shape (TupleType (t0 :: ts))) with
      (inferred_shape t0 && forallb inferred_shape ts &&
       negb (forallb (Equal t0) ts)).
    rewrite Hall, (IH0 _ H0). simpl. rewrite andb_true_r.
    apply forallb_Forall. clear Hall H0 IH0.
    induction Hts as [|x ty rest ts Hx _ IHts]; [constructor|].
    apply Forall_cons in IHrest as [IHx IHrest]. constructor; by auto.
  - intros Ht. pose proof (inferAttrType_map m) as H. rewrite Ht in H.
    destruct H as (ats & -> & Hrel).
    change (inferred_shape (ObjectType ats)) with
      (map_fold (λ _ x acc, acc && inferred_shape x) true ats).
    apply (map_fold_andb (λ _ x, inferred_shape x)). intros k ty Hk.
    specialize (Hrel k). rewrite Hk in Hrel.
    inversion Hrel as [x ty' Hx Hmk Heq|]. symmetry in Hmk.
    exact (IH k x Hmk ty Hx).
Qed.

(** X2.  A type that [inferAttrType] returns is a bool, number or string
    type, a list of such a type or of [DynamicType], a tuple of at least two
    such types not all equal to the first, or an object of such types.  It
    is never a map type, never [DynamicType] itself, never a type without a
    conversion. *)
Theorem inferAttrType_shape (v : interface) (t : attr_Type) :
  inferAttrType v = Ok t →
  inferred_shape t = true ∧ unsupported t = false ∧ ∀ ElemType, t ≠ MapType ElemType.
Proof.
  intros Ht. apply inferAttrType_inferred_shape in Ht.
  split; [done|]. by destruct t.
Qed.

Lemma inferAttrType_shape_witness :
  inferred_shape (TupleType [NumberType; StringType]) = true ∧
  unsupported (TupleType [NumberType; StringType]) = false ∧
  ∀ ElemType, TupleType [NumberType; StringType] ≠ MapType ElemType.
Proof.
  apply (inferAttrType_shape (go_slice [go_num Float64 1%Qc; go_string "a"])).
  reflexivity.
Defined.

(** X3.  On a map, [inferAttrType] returns the object type that binds
    exactly the keys of the map, each to the type inferred for the value
    under it; or, when the inference of some value fails, the error of
    such a value wrapped with its key. *)
Theorem inferAttrType_object (m : gmap string interface) :
  match inferAttrType (go_map m) with
  | Ok t =>
      ∃ AttrTypes, t = ObjectType AttrTypes ∧
        ∀ key, option_Forall2 (λ val ty, inferAttrType val = Ok ty)
                 (m !! key) (AttrTypes !! key)
  | Err e =>
      ∃ key val err, e = error_inferring_key key err ∧
        m !! key = Some val ∧ inferAttrType val = Err err
  end.
Proof.
  simpl.
  match goal with |- context [range_map ?f m ∅] =>
    pose proof (range_map_ind f (λ k x, m !! k = Some x)
      (λ m' ats, ∀ k,
         option_Forall2 (λ x ty, inferAttrType x = Ok ty) (m' !! k) (ats !! k))
      (λ r, ∃ k x err, r = Err (error_inferring_key k err) ∧ m !! k = Some x ∧
                       inferAttrType x = Err err) m ∅) as H
  end.
  lapply H; [clear H; intros H|intros k; rewrite !lookup_empty; constructor].
  lapply H; [clear H; intros H|clear H].
  - specialize (H (λ _ _ Hx, Hx)).
    destruct (range_map _ m ∅) as [ats|r]; [by exists ats|].
    by destruct H as (k & x & err & -> & Hk & Hx); exists k, x, err.
  - intros k x m' ats' _ Hk IH.
    destruct (inferAttrType x) as [ty|err] eqn:Hx.
    + intros k'. rewrite !lookup_insert. case_decide; [by constructor|apply IH].
    + by exists k, x, err.
Qed.



(** X5.  A number of a kind other than float64 is inferred as a number by
    [inferAttrType], and yet [convertToAttrValue] refuses it against the
    number type: it returns the null number with the error "expected
    number". *)
Theorem convert_number_kinds (k : num_kind) (n : Qc) :
  k ≠ Float64 →
  inferAttrType (go_num k n) = Ok NumberType ∧
  convertToAttrValue (go_num k n) NumberType
  = Return (types.NumberNull,
            [NewErrorDiagnostic "Conversion Error" (Text "expected number")]) ∧
  convertToAttrValue (go_num Float64 n) NumberType
  = Return (types.NumberValue n, []).
Proof. intros Hk. by destruct k. Qed.

Lemma convert_number_kinds_witness :
  inferAttrType (go_num Int64 1%Qc) = Ok NumberType ∧
  convertToAttrValue (go_num Int64 1%Qc) NumberType
  = Return (types.NumberNull,
            [NewErrorDiagnostic "Conversion Error" (Text "expected number")]) ∧
  convertToAttrValue (go_num Float64 1%Qc) NumberType
  = Return (types.NumberValue 1%Qc, []).
Proof. apply (convert_number_kinds Int64 1%Qc). discriminate. Defined.

(** ** What [convertToAttrValue] returns, and when it panics *)

(** A [range] over a slice returns from the function only what its body
    returns. *)
Lemma range_from_left {A S R : Type} (body : nat → A → S → flow S R)
    (E : R → Prop) (l : list A) (i : nat) (s : S) :
  (∀ i a s', match body i a s' with
             | Exit r => E r
             | _ => True
             end) →
  match range_from body i l s with
  | Left r => E r
  | Done _ => True
  end.
Proof.
  intros Hbody. revert i s. induction l as [|a l IH]; intros i s; simpl; [done|].
  specialize (Hbody i a s). destruct (body i a s); [apply IH|done|done].
Qed.

Lemma range_from2_left {A B S R : Type} (body : nat → A → B → S → flow S R)
    (out_of_range : R) (E : R → Prop) (l : list A) (ts : list B) (i : nat) (s : S) :
  E out_of_range →
  (∀ i a t s', match body i a t s' with
               | Exit r => E r
               | _ => True
               end) →
  match range_from2 body out_of_range i l ts s with
  | Left r => E r
  | Done _ => True
  end.
Proof.
  intros Hout Hbody. revert l i s.
  induction ts as [|t ts IH]; intros [|a l] i s; simpl; try done.
  specialize (Hbody i a t s). destruct (body i a t s); [apply IH|done|done].
Qed.

(** The ends of the checking constructors: the known value and no
    diagnostic, or the unknown value and an error. *)
Lemma finish_cases (st : ended Diagnostics (outcome (attr_Value * Diagnostics)))
    (unknown known v : attr_Value) (ds : Diagnostics) :
  match st with
  | Left r => r = Panic
  | Done _ => True
  end →
  types.finish st unknown known = Return (v, ds) →
  (v = known ∧ ds = []) ∨ (v = unknown ∧ HasError ds = true).
Proof.
  destruct st as [cd|r]; simpl.
  - intros _. destruct (HasError cd) eqn:Hcd; intros [= <- <-]; by auto.
  - by intros ->.
Qed.

Lemma ListValue_cases (elementType : attr_Type) (elements : list attr_Value)
    (v : attr_Value) (ds : Diagnostics) :
  types.ListValue elementType elements = Return (v, ds) →
  (v = basetypes.ListValue elements elementType ValueStateKnown ∧ ds = []) ∨
  (v = types.ListUnknown elementType ∧ HasError ds = true).
Proof.
  apply finish_cases.
  apply (range_from_left _ (λ r, r = Panic)). intros i element diags.
  destruct (basetypes.Type_ element) as [|ty]; [done|].
  by destruct (Equal elementType ty).
Qed.

Lemma TupleValue_cases (elementTypes : list attr_Type) (elements : list attr_Value)
    (v : attr_Value) (ds : Diagnostics) :
  types.TupleValue elementTypes elements = Return (v, ds) →
  (v = basetypes.TupleValue elements elementTypes ValueStateKnown ∧ ds = []) ∨
  (v = types.TupleUnknown elementTypes ∧ HasError ds = true).
Proof.
  unfold types.TupleValue.
  destruct (negb (length elementTypes =? length elements)%nat).
  - destruct (range_from _ 0 elements []) as [givenTypes|r] eqn:Hloop.
    + intros [= <- <-]. right. split; [done|]. apply HasError_AddError.
    + intros ->.
      match type of Hloop with range_from ?f _ _ _ = _ =>
        pose proof (range_from_left f (λ r, r = Panic) elements 0 []) as H
      end.
      rewrite Hloop in H. discriminate H. intros i element acc.
      by destruct (basetypes.Type_ element).
  - apply finish_cases.
    apply (range_from2_left _ _ (λ r, r = Panic)); [done|].
    intros i element t diags.
    destruct (basetypes.Type_ element) as [|ty]; [done|].
    by destruct (Equal t ty).
Qed.

Lemma ObjectValue_cases (attributeTypes : gmap string attr_Type)
    (attributes : gmap string attr_Value) (v : attr_Value) (ds : Diagnostics) :
  types.ObjectValue attributeTypes attributes = Return (v, ds) →
  (v = basetypes.ObjectValue attributes attributeTypes ValueStateKnown ∧ ds = []) ∨
  (v = types.ObjectUnknown attributeTypes ∧ HasError ds = true).
Proof.
  unfold types.ObjectValue.
  match goal with |- context [range_map ?f attributeTypes []] =>
    pose proof (range_map_left f (λ r, r = Panic) attributeTypes []) as H1
  end.
  destruct (range_map _ attributeTypes []) as [cd|r].
  - clear H1. apply finish_cases.
    apply (range_map_left _ (λ r, r = Panic)). intros k a s'.
    by destruct (attributeTypes !! k).
  - rewrite H1; [done|]. intros k t s'.
    destruct (attributes !! k) as [attribute|]; [|done].
    destruct (basetypes.Type_ attribute) as [|ty]; [done|].
    by destruct (Equal t ty).
Qed.

Lemma MapValue_cases (elementType : attr_Type)
    (elements : gmap string attr_Value) (v : attr_Value) (ds : Diagnostics) :
  types.MapValue elementType elements = Return (v, ds) →
  (v = basetypes.MapValue elements elementType ValueStateKnown ∧ ds = []) ∨
  (v = types.MapUnknown elementType ∧ HasError ds = true).
Proof.
  apply finish_cases.
  apply (range_map_left _ (λ r, r = Panic)). intros k element s'.
  destruct (basetypes.Type_ element) as [|ty]; [done|].
  by destruct (Equal elementType ty).
Qed.


(** The cases of [convertToAttrValue] on a slice and on a map, with their
    loops. *)
Lemma convertToAttrValue_list (slice : list interface) (ElemType : attr_Type) :
  convertToAttrValue (go_slice slice) (ListType ElemType)
  = match range_from (R:=outcome (attr_Value * Diagnostics))
            (λ _ a '(elems, diags),
               match convertToAttrValue a ElemType with
               | Panic => Exit Panic
               | Return (v, ds) => Next ((elems ++ [v])%list, Append diags ds)
               end) 0 slice ([], []) with
    | Left r => r
    | Done (elems, _) => types.ListValue ElemType elems
    end.
Proof. reflexivity. Qed.

Lemma convertToAttrValue_tuple (slice : list interface) (ElemTypes : list attr_Type) :
  convertToAttrValue (go_slice slice) (TupleType ElemTypes)
  = if negb (length slice =? length ElemTypes)%nat then
      Return (types.TupleNull ElemTypes,
              AddError [] "Conversion Error" (Text "tuple length mismatch"))
    else
      match range_from2 (R:=outcome (attr_Value * Diagnostics))
              (λ _ a t '(elems, diags),
                 match convertToAttrValue a t with
                 | Panic => Exit Panic
                 | Return (v, ds) => Next ((elems ++ [v])%list, Append diags ds)
                 end) Panic 0 slice ElemTypes ([], []) with
      | Left r => r
      | Done (elems, _) => types.TupleValue ElemTypes elems
      end.
Proof. reflexivity. Qed.

Lemma convertToAttrValue_map (m : gmap string interface) (ElemType : attr_Type) :
  convertToAttrValue (go_map m) (MapType ElemType)
  = match range_map (R:=outcome (attr_Value * Diagnostics))
            (λ key value '(mapValues, diags),
               match convertToAttrValue value ElemType with
               | Panic => Exit Panic
               | Return (v, ds) =>
                   if HasError ds
                   then Exit (types.MapValue ElemType ∅)
                   else Next (<[key:=v]> mapValues, Append diags ds)
               end) m (∅, []) with
    | Left r => r
    | Done (mapValues, _) => types.MapValue ElemType mapValues
    end.
Proof. reflexivity. Qed.

Lemma convert_cases (raw : interface) (t : attr_Type)
    (v : attr_Value) (ds : Diagnostics) :
  raw ≠ go_nil →
  convertToAttrValue raw t = Return (v, ds) →
  (basetypes.state v = Some ValueStateKnown ∧ ds = []) ∨
  (basetypes.state v ≠ Some ValueStateKnown ∧ HasError ds = true).
Proof.
  intros Hraw.
  assert (∀ (val : attr_Value) summary detail,
    basetypes.state val ≠ Some ValueStateKnown →
    Return (val, AddError [] summary detail) = Return (v, ds) →
    (basetypes.state v = Some ValueStateKnown ∧ ds = []) ∨
    (basetypes.state v ≠ Some ValueStateKnown ∧ HasError ds = true)) as Hfail.
  { intros val summary detail Hval [= <- <-]. right. split; [done|].
    apply HasError_AddError. }
  assert (∀ (known unknown : attr_Value),
    basetypes.state known = Some ValueStateKnown →
    basetypes.state unknown ≠ Some ValueStateKnown →
    (v = known ∧ ds = []) ∨ (v = unknown ∧ HasError ds = true) →
    (basetypes.state v = Some ValueStateKnown ∧ ds = []) ∨
    (basetypes.state v ≠ Some ValueStateKnown ∧ HasError ds = true)) as Hcases.
  { intros known unknown Hk Hu [[-> ->]|[-> Hds]]; by auto. }
  destruct t as [| | | |ElemType|ElemTypes|AttrTypes|ElemType|T].
  - destruct raw; try done; try (by apply Hfail). intros [= <- <-]. by left.
  - destruct raw as [| |[]| | | |]; try done; try (by apply Hfail).
    intros [= <- <-]. by left.
  - destruct raw; try done; try (by apply Hfail). intros [= <- <-]. by left.
  - destruct raw; try done; by apply Hfail.
  - destruct raw as [| | | |slice| |]; try done; try (by apply Hfail).
    rewrite convertToAttrValue_list.
    pose proof (range_from_collect_left (λ a, convertToAttrValue a ElemType)
      slice 0 ([], [])) as Hloop.
    destruct (range_from _ 0 slice ([], [])) as [[elems diags]|r]; [|by subst r].
    intros Hv. apply ListValue_cases in Hv. by refine (Hcases _ _ _ _ Hv).
  - destruct raw as [| | | |slice| |]; try done; try (by apply Hfail).
    rewrite convertToAttrValue_tuple.
    destruct (negb (length slice =? length ElemTypes)%nat); [by apply Hfail|].
    pose proof (range_from2_collect_left convertToAttrValue
      slice ElemTypes 0 ([], [])) as Hloop.
    destruct (range_from2 _ Panic 0 slice ElemTypes ([], []))
      as [[elems diags]|r]; [|by subst r].
    intros Hv. apply TupleValue_cases in Hv. by refine (Hcases _ _ _ _ Hv).
  - destruct raw as [| | | | |m|]; try done; try (by apply Hfail).
    rewrite convertToAttrValue_object.
    pose proof (range_map_left (object_body m AttrTypes)
      (λ r, r = Return (v, ds) →
            basetypes.state v ≠ Some ValueStateKnown ∧ HasError ds = true)
      AttrTypes (∅, [])) as Hloop.
    destruct (range_map _ AttrTypes (∅, [])) as [[objValues diags]|r].
    + intros Hv. apply ObjectValue_cases in Hv. by refine (Hcases _ _ _ _ Hv).
    + intros Hr. right. apply Hloop; [|done].
      intros k a [objValues diags]. unfold object_body.
      destruct (convertToAttrValue (index m k) a) as [|[v' ds']]; [done|].
      destruct (HasError ds') eqn:Hds'; [|done]. intros [= <- <-].
      split; [done|]. rewrite HasError_Append, Hds'. apply orb_true_r.
  - assert (types.MapValue ElemType ∅ = Return (v, ds) →
            (basetypes.state v = Some ValueStateKnown ∧ ds = []) ∨
            (basetypes.state v ≠ Some ValueStateKnown ∧ HasError ds = true))
      as Hempty by (by intros [= <- <-]; left).
    destruct raw as [| | | | |m|]; try done.
    rewrite convertToAttrValue_map.
    match goal with |- context [range_map ?f m (∅, [])] =>
      pose proof (range_map_left f
        (λ r, r = Return (v, ds) →
              (basetypes.state v = Some ValueStateKnown ∧ ds = []) ∨
              (basetypes.state v ≠ Some ValueStateKnown ∧ HasError ds = true))
        m (∅, [])) as Hloop
    end.
    destruct (range_map _ m (∅, [])) as [[mapValues diags]|r].
    + intros Hv. apply MapValue_cases in Hv. by refine (Hcases _ _ _ _ Hv).
    + apply Hloop. intros k a [mapValues diags].
      destruct (convertToAttrValue a ElemType) as [|[v' ds']]; [done|].
      by destruct (HasError ds').
  - destruct raw; try done; by apply Hfail.
Qed.

(** X6.  Of a value other than nil, [convertToAttrValue] returns either a
    known value with no diagnostic at all, or a value that is not known
    (a null, an unknown or the nil value) with an error among its
    diagnostics.  So the returned value is known exactly when the returned
    diagnostics are empty, and exactly when they hold no error. *)
Theorem convert_known_iff_no_diagnostic (raw : interface) (t : attr_Type)
    (v : attr_Value) (ds : Diagnostics) :
  raw ≠ go_nil →
  convertToAttrValue raw t = Return (v, ds) →
  (basetypes.state v = Some ValueStateKnown ↔ ds = []) ∧
  (basetypes.state v = Some ValueStateKnown ↔ HasError ds = false).
Proof.
  intros Hraw Hc.
  destruct (convert_cases raw t v ds Hraw Hc) as [[Hv ->]|[Hv Hds]].
  - done.
  - split; (split; [done|]); [intros ->; done|by rewrite Hds].
Qed.

Lemma convert_known_iff_no_diagnostic_witness :
  (basetypes.state (types.ObjectNull example_AttrTypes) = Some ValueStateKnown ↔
   [NewErrorDiagnostic "Conversion Error" (Text "expected number")] = []) ∧
  (basetypes.state (types.ObjectNull example_AttrTypes) = Some ValueStateKnown ↔
   HasError [NewErrorDiagnostic "Conversion Error" (Text "expected number")] = false).
Proof.
  apply (convert_known_iff_no_diagnostic (go_map example_fields)
           (ObjectType example_AttrTypes)).
  - discriminate.
  - vm_compute. reflexivity.
Defined.







Lemma interface_nil_dec (raw : interface) : raw = go_nil ∨ raw ≠ go_nil.
Proof. destruct raw; by auto. Qed.


(** The loops of the [ListType] and [TupleType] cases, when the conversion
    of every element returns. *)
Lemma convert_list_loop (ElemType : attr_Type) (slice : list interface) :
  Forall (λ elem, ∃ v ds, convertToAttrValue elem ElemType = Return (v, ds)) slice →
  ∃ vals,
    Forall2 (λ elem v, ∃ ds, convertToAttrValue elem ElemType = Return (v, ds))
      slice vals ∧
    convertToAttrValue (go_slice slice) (ListType ElemType)
    = types.ListValue ElemType vals.
Proof.
  intros Hslice.
  assert (∃ vals, Forall2 (λ elem v,
            ∃ ds, convertToAttrValue elem ElemType = Return (v, ds)) slice vals)
    as [vals Hvals].
  { induction Hslice as [|elem slice (v & ds & Hc) _ [vals Hvals]].
    - exists []. constructor.
    - exists (v :: vals). constructor; [by exists ds|done]. }
  exists vals. split; [done|]. rewrite convertToAttrValue_list.
  destruct (range_from_collect (λ a, convertToAttrValue a ElemType)
    slice vals 0 [] [] Hvals) as [diags' ->]. done.
Qed.





(** A known list or object comes from elements of the expected types. *)
Lemma ListValue_known_inv (elementType : attr_Type) (elements : list attr_Value)
    (v : attr_Value) (ds : Diagnostics) :
  types.ListValue elementType elements = Return (v, ds) →
  basetypes.state v = Some ValueStateKnown →
  Forall (λ element, basetypes.Type_ element = Return elementType) elements.
Proof.
  unfold types.ListValue.
  match goal with |- context [range_from ?f 0 elements []] =>
    assert (∀ i acc,
      match range_from f i elements acc with
      | Done cd =>
          HasError cd = false →
          HasError acc = false ∧
          Forall (λ element, basetypes.Type_ element = Return elementType) elements
      | Left r => r = Panic
      end) as Hloop
  end.
  { induction elements as [|element elements IH]; intros i acc; simpl; [done|].
    destruct (basetypes.Type_ element) as [|ty] eqn:Hty; [done|].
    destruct (Equal elementType ty) eqn:Heq.
    - apply Equal_spec in Heq as <-. specialize (IH (S i) acc).
      destruct (range_from _ (S i) elements acc); [|done].
      intros Hcd. destruct (IH Hcd). split; [done|]. by constructor.
    - specialize (IH (S i)
        (AddError acc "Invalid List Element Type"
           (ListElementType elementType i ty))).
      destruct (range_from _ (S i) elements _) as [cd|]; [|done].
      intros Hcd. destruct (IH Hcd) as [Hacc _].
      by rewrite HasError_AddError in Hacc. }
  specialize (Hloop 0 []).
  destruct (range_from _ 0 elements []) as [cd|r]; simpl; [|by subst r].
  destruct (HasError cd); intros [= <- <-]; [done|].
  intros _. by apply Hloop.
Qed.






Lemma MapValue_diagnostics (elementType : attr_Type)
    (elements : gmap string attr_Value) (v : attr_Value) (ds : Diagnostics) :
  types.MapValue elementType elements = Return (v, ds) →
  Forall (λ d, summary d = "Invalid Map Element Type") ds.
Proof.
  unfold types.MapValue, types.finish.
  match goal with |- context [range_map ?f elements []] =>
    pose proof (range_map_ind f (λ _ _, True)
      (λ _ diags, Forall (λ d, summary d = "Invalid Map Element Type") diags)
      (λ r, r = Panic) elements []) as H
  end.
  lapply H; [clear H; intros H|constructor].
  lapply H; [clear H; intros H|clear H].
  - specialize (H (λ _ _ _, Logic.I)).
    destruct (range_map _ elements []) as [cd|r]; [|by subst r].
    destruct (HasError cd); intros [= <- <-]; [done|constructor].
  - intros k element m' diags _ _ Hdiags.
    destruct (basetypes.Type_ element) as [|ty]; [done|].
    destruct (Equal elementType ty); [done|]. by apply Forall_AddError.
Qed.

(** X10.  Against a map type, no "Conversion Error" is ever returned: the
    diagnostics are those of [types.MapValue].  A value that is neither
    nil nor a map is converted to the known empty map with no diagnostic
    at all; the error "expected map for MapType" that the code adds is
    lost. *)
Theorem convert_map_diagnostics (raw : interface) (ElemType : attr_Type)
    (v : attr_Value) (ds : Diagnostics) :
  convertToAttrValue raw (MapType ElemType) = Return (v, ds) →
  Forall (λ d, summary d = "Invalid Map Element Type") ds ∧
  (is_map raw = false → ds = []) ∧
  (is_map raw = false → raw ≠ go_nil →
   v = basetypes.MapValue ∅ ElemType ValueStateKnown).
Proof.
  destruct raw as [| | | | |m|];
    try (intros [= <- <-]; split; [constructor|by split]).
  rewrite convertToAttrValue_map. intros Hv. split; [|done].
  match type of Hv with context [range_map ?f m (∅, [])] =>
    pose proof (range_map_left f
      (λ r, r = Return (v, ds) →
            Forall (λ d, summary d = "Invalid Map Element Type") ds)
      m (∅, [])) as Hloop
  end.
  destruct (range_map _ m (∅, [])) as [[mapValues diags]|r].
  - by apply MapValue_diagnostics in Hv.
  - apply Hloop; [|done]. intros k a [mapValues diags].
    destruct (convertToAttrValue a ElemType) as [|[v' ds']]; [done|].
    destruct (HasError ds'); [|done]. intros [= <- <-]. constructor.
Qed.

Lemma convert_map_diagnostics_witness :
  Forall (λ d, summary d = "Invalid Map Element Type") [] ∧
  (is_map (go_string "a") = false → @nil Diagnostic = []) ∧
  (is_map (go_string "a") = false → go_string "a" ≠ go_nil →
   basetypes.MapValue ∅ BoolType ValueStateKnown
   = basetypes.MapValue ∅ BoolType ValueStateKnown).
Proof.
  apply (convert_map_diagnostics (go_string "a") BoolType). reflexivity.
Defined.

(** X11.  A map one of whose elements converts with an error is
    converted, against a map type, to the known empty map with no
    diagnostic at all, provided no element conversion panics: the error
    and the values of the other elements are lost. *)
Theorem convert_map_failing_element (m : gmap string interface)
    (ElemType : attr_Type) (key : string) (value : interface)
    (v : attr_Value) (ds : Diagnostics) :
  map_Forall (λ _ x, convertToAttrValue x ElemType ≠ Panic) m →
  m !! key = Some value →
  convertToAttrValue value ElemType = Return (v, ds) →
  HasError ds = true →
  convertToAttrValue (go_map m) (MapType ElemType)
  = Return (basetypes.MapValue ∅ ElemType ValueStateKnown, []).
Proof.
  intros Hm Hkey Hvalue Hds. rewrite convertToAttrValue_map.
  match goal with |- context [range_map ?f m (∅, [])] =>
    pose proof (range_map_ind f
      (λ _ x, convertToAttrValue x ElemType ≠ Panic)
      (λ m' _, ∀ k x v' ds', m' !! k = Some x →
         convertToAttrValue x ElemType = Return (v', ds') → HasError ds' = false)
      (λ r, r = Return (basetypes.MapValue ∅ ElemType ValueStateKnown, []))
      m (∅, [])) as H
  end.
  lapply H; [clear H; intros H|by intros k x v' ds'; rewrite lookup_empty].
  lapply H; [clear H; intros H|clear H].
  - specialize (H Hm).
    destruct (range_map _ m (∅, [])) as [[mapValues diags]|r]; [|done].
    specialize (H key value v ds Hkey Hvalue). congruence.
  - intros k x m' [mapValues diags] _ Hx Hinv.
    destruct (convertToAttrValue x ElemType) as [|[v' ds']] eqn:Hconv; [done|].
    destruct (HasError ds') eqn:Hds'; [done|].
    intros k' x' v'' ds''. rewrite lookup_insert. case_decide; [|by apply Hinv].
    intros [= <-]. rewrite Hconv. by intros [= <- <-].
Qed.

Lemma convert_map_failing_element_witness :
  convertToAttrValue (go_map example_fields) (MapType StringType)
  = Return (basetypes.MapValue ∅ StringType ValueStateKnown, []).
Proof.
  apply (convert_map_failing_element example_fields StringType "c"
           (go_bool true) types.StringNull
           [NewErrorDiagnostic "Conversion Error" (Text "expected string")]).
  - vm_compute. intros k x Hx. by destruct x.
  - vm_compute. reflexivity.
  - reflexivity.
  - reflexivity.
Defined.

(** The [default] branch of [convertToAttrValue]. *)
Lemma convert_default (raw : interface) (t : attr_Type) :
  raw ≠ go_nil → unsupported t = true →
  ∃ ds, convertToAttrValue raw t = Return (basetypes.nil, ds).
Proof. intros Hraw Ht. destruct t; try done; destruct raw; try done; by eexists. Qed.

Lemma convert_unsupported_returns (raw : interface) (t : attr_Type) :
  unsupported t = true → ∃ v ds, convertToAttrValue raw t = Return (v, ds).
Proof.
  intros Ht. destruct (interface_nil_dec raw) as [->|Hraw].
  - rewrite convertToAttrValue_nil. by eexists _, _.
  - destruct (convert_default raw t Hraw Ht) as [ds ->]. by eexists _, _.
Qed.

(** On a nil element, the checking constructors panic. *)
Lemma ListValue_nil (elementType : attr_Type) (elements : list attr_Value)
    (i : nat) :
  elements !! i = Some basetypes.nil →
  types.ListValue elementType elements = Panic.
Proof.
  intros Hi. unfold types.ListValue.
  match goal with |- context [range_from ?f 0 elements []] =>
    assert (∀ n acc, range_from f n elements acc = Left Panic) as Hloop
  end.
  { revert i Hi. induction elements as [|element elements IH]; intros i Hi n acc;
      [done|]. simpl.
    destruct (basetypes.Type_ element) as [|ty] eqn:Hty; [done|].
    destruct i as [|i]; [by injection Hi as ->|].
    destruct (Equal elementType ty); by apply (IH i). }
  by rewrite Hloop.
Qed.

Lemma TupleValue_nil (elementTypes : list attr_Type) (elements : list attr_Value)
    (i : nat) :
  elements !! i = Some basetypes.nil →
  types.TupleValue elementTypes elements = Panic.
Proof.
  intros Hi. unfold types.TupleValue.
  destruct (negb (length elementTypes =? length elements)%nat).
  - match goal with |- context [range_from ?f 0 elements []] =>
      assert (∀ n acc, range_from f n elements acc = Left Panic) as Hloop
    end.
    { revert i Hi. induction elements as [|element elements IH]; intros i Hi n acc;
        [done|]. simpl.
      destruct (basetypes.Type_ element) as [|ty] eqn:Hty; [done|].
      destruct i as [|i]; [by injection Hi as ->|]. by apply (IH i). }
    by rewrite Hloop.
  - match goal with |- context [range_from2 ?f Panic 0 elements elementTypes []] =>
      assert (∀ n acc,
        range_from2 f Panic n elements elementTypes acc = Left Panic) as Hloop
    end.
    { revert elements i Hi.
      induction elementTypes as [|t ts IH]; intros [|element elements] i Hi n acc;
        try done. simpl.
      destruct (basetypes.Type_ element) as [|ty] eqn:Hty; [done|].
      destruct i as [|i]; [by injection Hi as ->|].
      destruct (Equal t ty); by apply (IH elements i). }
    by rewrite Hloop.
Qed.

Section collect2_done.
Context {A B : Type} (g : A → B → outcome (attr_Value * Diagnostics)).

(** What the loop of the [TupleType] case has collected at its end. *)
Lemma range_from2_collect_inv (l : list A) (ts : list B) (i : nat)
    (elems : list attr_Value) (diags : Diagnostics) :
  length l = length ts →
  match range_from2 (R:=outcome (attr_Value * Diagnostics))
          (λ _ a t '(elems, diags),
             match g a t with
             | Panic => Exit Panic
             | Return (v, ds) => Next ((elems ++ [v])%list, Append diags ds)
             end) Panic i l ts (elems, diags) with
  | Done (elems', _) =>
      ∃ vals, elems' = (elems ++ vals)%list ∧
        Forall3 (λ a t v, ∃ ds, g a t = Return (v, ds)) l ts vals
  | Left r => r = Panic
  end.
Proof.
  revert l i elems diags.
  induction ts as [|t ts IH]; intros [|a l] i elems diags Hlen; try done.
  - exists []. split; [by rewrite app_nil_r|constructor].
  - simpl. destruct (g a t) as [|[v ds]] eqn:Hg; [done|].
    injection Hlen as Hlen.
    specialize (IH l (S i) (elems ++ [v])%list (Append diags ds) Hlen).
    destruct (range_from2 _ Panic (S i) l ts _) as [[elems' diags']|r]; [|done].
    destruct IH as (vals & -> & Hvals). exists (v :: vals).
    split; [by rewrite <- app_assoc|]. constructor; [by exists ds|done].
Qed.
End collect2_done.

(** X12.  A slice with an element other than nil, converted against a
    list type whose element type has no conversion ([DynamicType], the
    element type inferred for the empty slice, is one), makes
    [convertToAttrValue] panic: the nil value returned for the element is
    handed to [types.ListValue]. *)
Theorem convert_list_unsupported_panics (ElemType : attr_Type)
    (slice : list interface) (i : nat) (elem : interface) :
  unsupported ElemType = true → slice !! i = Some elem → elem ≠ go_nil →
  convertToAttrValue (go_slice slice) (ListType ElemType) = Panic.
Proof.
  intros Ht Hi Helem.
  destruct (convert_list_loop ElemType slice) as (vals & Hvals & ->).
  { apply Forall_forall. intros x _. by apply convert_unsupported_returns. }
  destruct (Forall2_lookup_l _ _ _ _ _ Hvals Hi) as (val & Hval & ds & Hconv).
  destruct (convert_default elem ElemType Helem Ht) as [ds' Hnil].
  rewrite Hnil in Hconv. injection Hconv as <- <-.
  by apply (ListValue_nil ElemType vals i).
Qed.

Lemma convert_list_unsupported_panics_witness :
  convertToAttrValue (go_slice [go_nil; go_string "a"]) (ListType DynamicType)
  = Panic.
Proof.
  apply (convert_list_unsupported_panics DynamicType [go_nil; go_string "a"] 1
           (go_string "a")).
  - reflexivity.
  - reflexivity.
  - discriminate.
Defined.

(** X13.  A slice converted against a tuple type of its length makes
    [convertToAttrValue] panic as soon as, at some index, the element is
    not nil and the element type has no conversion. *)
Theorem convert_tuple_unsupported_panics (ElemTypes : list attr_Type)
    (slice : list interface) (i : nat) (elem : interface) (t : attr_Type) :
  length slice = length ElemTypes →
  slice !! i = Some elem → ElemTypes !! i = Some t →
  elem ≠ go_nil → unsupported t = true →
  convertToAttrValue (go_slice slice) (TupleType ElemTypes) = Panic.
Proof.
  intros Hlen Hi Hti Helem Ht. rewrite convertToAttrValue_tuple.
  pose proof Hlen as Hlenb. apply Nat.eqb_eq in Hlenb. rewrite Hlenb. simpl.
  pose proof (range_from2_collect_inv convertToAttrValue slice ElemTypes 0 [] []
    Hlen) as Hloop.
  destruct (range_from2 _ Panic 0 slice ElemTypes ([], []))
    as [[elems diags]|r]; [|done].
  destruct Hloop as (vals & -> & Hvals). simpl.
  destruct (Forall3_lookup_l _ _ _ _ _ _ Hvals Hi)
    as (t' & val & Hti' & Hval & ds & Hconv).
  assert (t' = t) as -> by congruence.
  destruct (convert_default elem t Helem Ht) as [ds' Hnil].
  rewrite Hnil in Hconv. injection Hconv as <- <-.
  by apply (TupleValue_nil ElemTypes vals i).
Qed.

Lemma convert_tuple_unsupported_panics_witness :
  convertToAttrValue (go_slice [go_bool true; go_string "a"])
    (TupleType [BoolType; DynamicType]) = Panic.
Proof.
  apply (convert_tuple_unsupported_panics [BoolType; DynamicType]
           [go_bool true; go_string "a"] 1 (go_string "a") DynamicType).
  - reflexivity.
  - reflexivity.
  - reflexivity.
  - discriminate.
  - reflexivity.
Defined.

(** ** [OutputDataSource.Read] on a decoded document *)

Lemma is_json_index (m : gmap string interface) (key : string) :
  is_json (go_map m) = true → is_json (index m key) = true.
Proof.
  rewrite is_json_map. intros Hm. unfold index.
  destruct (m !! key) as [x|] eqn:Hx; [by apply (Hm key x)|done].
Qed.

Lemma assert_map_Some (m : gmap string interface) (key : string)
    (fields : gmap string interface) :
  assert_map (index m key) = Some fields ↔ m !! key = Some (go_map fields).
Proof.
  unfold index. destruct (m !! key) as [[]|]; simpl;
    split; intros [=]; by subst.
Qed.

(** The two objects that [Read] builds from outputs decoded from JSON. *)
Lemma Read_outputs_json_objects (outputs : gmap string interface) :
  map_Forall (λ _ output, is_json_output output = true) outputs →
  ∃ p obj obj',
    walk_outputs outputs = Done p ∧
    ObjectValue_nilable (sensitiveTypes p) (sensitiveValues p) = Return (obj, []) ∧
    ObjectValue_nilable (nonSensitiveTypes p) (nonSensitiveValues p)
    = Return (obj', []).
Proof.
  intros Hjson.
  destruct (walk_outputs_spec outputs) as (p & Hwalk & Hp).
  { intros x o Hx. specialize (Hjson x o Hx). unfold is_json_output in Hjson.
    by apply andb_true_iff in Hjson as [? _]. }
  exists p. eexists _, _. split; [done|].
  split; apply ObjectValue_nilable_typed.
  - intros x. destruct (Hp x) as (-> & -> & _ & _).
    destruct (outputs !! x) as [o|] eqn:Hx; simpl; [|constructor].
    destruct (json_output_converted o (Hjson x o Hx))
      as (t & val & _ & _ & Hty & -> & ->).
    constructor. by exists t.
  - intros x. destruct (Hp x) as (_ & _ & -> & ->).
    destruct (outputs !! x) as [o|] eqn:Hx; simpl; [|constructor].
    destruct (is_false (output_sensitive o)); [|constructor].
    destruct (json_output_converted o (Hjson x o Hx))
      as (t & val & _ & _ & Hty & -> & ->).
    constructor. by exists t.
Qed.

Lemma Read_outputs_json_returns (outputs : gmap string interface)
    (respDiags : Diagnostics) :
  is_json (go_map outputs) = true →
  ∃ st, Read_outputs outputs respDiags = Return (st, respDiags) ∧
    (is_Some st ↔
       HasError respDiags = false ∧
       map_Forall (λ _ output, is_map output = true) outputs).
Proof.
  intros Hjson.
  destruct (decide (map_Forall (λ _ output, is_map output = true) outputs))
    as [Hmaps|Hmaps].
  - destruct (Read_outputs_json_objects outputs) as (p & obj & obj' & Hw & Ho & Ho').
    { intros x o Hx. unfold is_json_output. rewrite (Hmaps x o Hx). simpl.
      apply is_json_map in Hjson. specialize (Hjson x o Hx). simpl in Hjson.
      specialize (Hmaps x o Hx). destruct o as [| | | | |fields|]; try done.
      by apply is_json_index. }
    unfold Read_outputs. rewrite Hw, Ho, Ho'. rewrite !Append_nil_r.
    destruct (HasError respDiags).
    + exists None. split; [done|]. split; [by intros [? [=]]|by intros [[=] _]].
    + eexists (Some _). split; [done|]. by split.
  - exists None. split.
    + apply map_not_Forall in Hmaps; [|apply _].
      destruct Hmaps as (x & o & Hx & Ho).
      apply (Read_outputs_not_record outputs respDiags x o Hx).
      by destruct (is_map o).
    + split; [by intros [? [=]]|by intros [_ ?]].
Qed.

Lemma Read_result_decoded (result : gmap string interface) (respDiags : Diagnostics) :
  is_json (go_map result) = true →
  ∃ st, Read_result result respDiags = Return (st, respDiags) ∧
    (is_Some st ↔
       HasError respDiags = false ∧
       ∃ values outputs,
         result !! "values" = Some (go_map values) ∧
         values !! "outputs" = Some (go_map outputs) ∧
         map_Forall (λ _ output, is_map output = true) outputs).
Proof.
  intros Hjson. unfold Read_result.
  destruct (assert_map (index result "values")) as [values|] eqn:Hvalues.
  - pose proof (is_json_index result "values" Hjson) as Hjv.
    apply assert_map_Some in Hvalues.
    assert (index result "values" = go_map values) as Hiv
      by (unfold index; by rewrite Hvalues).
    rewrite Hiv in Hjv.
    destruct (assert_map (index values "outputs")) as [outputs|] eqn:Houtputs.
    + pose proof (is_json_index values "outputs" Hjv) as Hjo.
      apply assert_map_Some in Houtputs.
      assert (index values "outputs" = go_map outputs) as Hio
        by (unfold index; by rewrite Houtputs).
      rewrite Hio in Hjo.
      destruct (Read_outputs_json_returns outputs respDiags Hjo) as (st & -> & Hst).
      exists st. split; [done|]. rewrite Hst. split.
      * intros [Herr Hmaps]. split; [done|]. by exists values, outputs.
      * intros (Herr & values' & outputs' & Hv' & Ho' & Hmaps).
        assert (values' = values) as -> by congruence.
        assert (outputs' = outputs) as -> by congruence. done.
    + exists None. split; [done|]. split; [by intros [? [=]]|].
      intros (_ & values' & outputs' & Hv' & Ho' & _).
      assert (values' = values) as -> by congruence.
      apply assert_map_Some in Ho'. congruence.
  - exists None. split; [done|]. split; [by intros [? [=]]|].
    intros (_ & values' & outputs' & Hv' & _).
    apply assert_map_Some in Hv'. congruence.
Qed.

(** X14.  On a document decoded from JSON, [Read] does not panic and adds
    no diagnostic of its own: [resp.Diagnostics] are returned as they
    were.  It gets to assign the two values exactly when
    [resp.Diagnostics] held no error and the document has a map under
    ["values"], that map a map under ["outputs"], and every output is a
    map; in every other case it returns without a value and without a
    word in the diagnostics. *)
Theorem Read_result_json (result : gmap string interface) (respDiags : Diagnostics) :
  is_json (go_map result) = true →
  ∃ st, Read_result result respDiags = Return (st, respDiags) ∧
    (is_Some st ↔
       HasError respDiags = false ∧
       ∃ values outputs,
         result !! "values" = Some (go_map values) ∧
         values !! "outputs" = Some (go_map outputs) ∧
         map_Forall (λ _ output, is_map output = true) outputs).
Proof. apply Read_result_decoded. Qed.

Lemma Read_result_json_witness :
  ∃ st,
    Read_result (<["values" := go_map (<["outputs" := go_map example_outputs]> ∅)]> ∅)
      [] = Return (st, []) ∧
    (is_Some st ↔
       HasError [] = false ∧
       ∃ values outputs,
         (<["values" := go_map (<["outputs" := go_map example_outputs]> ∅)]> ∅
            : gmap string interface) !! "values" = Some (go_map values) ∧
         values !! "outputs" = Some (go_map outputs) ∧
         map_Forall (λ _ output, is_map output = true) outputs).
Proof. apply Read_result_json. vm_compute. reflexivity. Defined.

(** ** The type names of the data sources *)

Lemma last_char_app (p : string) (c : Ascii.ascii) (s : string) :
  last_char (p ++ String c s) = last_char (String c s).
Proof.
  induction p as [|a p IH]; [done|].
  change (String a p ++ String c s) with (String a (p ++ String c s)).
  rewrite <- IH. simpl. by destruct p.
Qed.

Lemma length_append (p s : string) :
  String.length (p ++ s) = String.length p + String.length s.
Proof.
  induction p as [|a p IH]; [done|].
  change (String a p ++ s) with (String a (p ++ s)). simpl. by rewrite IH.
Qed.

Lemma append_inj_l (p q s : string) : p ++ s = q ++ s → p = q.
Proof.
  intros H. apply (f_equal String.length) in H as Hlen.
  rewrite !length_append in Hlen.
  assert (String.length p = String.length q) as Hpq by lia. clear Hlen.
  revert q H Hpq. induction p as [|a p IH]; intros [|b q] H Hpq; try done.
  injection H as -> H. injection Hpq as Hpq. f_equal. by apply IH.
Qed.

(** X15.  The three [Metadata] methods give type names that never
    coincide, whatever the provider type names, and each type name
    determines the provider type name it was built from. *)
Theorem Metadata_type_names (p q : string) :
  WorkspaceDataSource_Metadata p ≠ OutputDataSource_Metadata q ∧
  WorkspaceDataSource_Metadata p ≠ TeamDataSource_Metadata q ∧
  OutputDataSource_Metadata p ≠ TeamDataSource_Metadata q ∧
  (WorkspaceDataSource_Metadata p = WorkspaceDataSource_Metadata q ↔ p = q) ∧
  (OutputDataSource_Metadata p = OutputDataSource_Metadata q ↔ p = q) ∧
  (TeamDataSource_Metadata p = TeamDataSource_Metadata q ↔ p = q).
Proof.
  unfold WorkspaceDataSource_Metadata, OutputDataSource_Metadata,
    TeamDataSource_Metadata.
  repeat split;
    try (intros H; apply (f_equal last_char) in H;
         rewrite !last_char_app in H; discriminate H);
    try (by intros ->); apply append_inj_l.
Qed.

(** ** The reads of the data sources *)

Lemma foldl_team_body (state : TeamDataSourceModel.t)
    (teams : list client.TeamEntity.t) :
  TeamDataSourceModel.Organization (foldl team_body state teams)
  = TeamDataSourceModel.Organization state ∧
  TeamDataSourceModel.Name (foldl team_body state teams)
  = TeamDataSourceModel.Name state.
Proof.
  revert state. induction teams as [|data teams IH]; intros state; [done|].
  simpl. by destruct (IH (team_body state data)) as [-> ->].
Qed.

Lemma team_body_ext (state state' : TeamDataSourceModel.t)
    (data : client.TeamEntity.t) :
  TeamDataSourceModel.Organization state
  = TeamDataSourceModel.Organization state' →
  TeamDataSourceModel.Name state = TeamDataSourceModel.Name state' →
  team_body state data = team_body state' data.
Proof. unfold team_body. by intros -> ->. Qed.

Lemma length_snoc_eqb {A : Type} (l : list A) (x : A) :
  (length (l ++ [x]) =? 0)%nat = false.
Proof. rewrite length_app. simpl. apply Nat.eqb_neq. lia. Qed.

Lemma last_organization_ID_snoc (orgs : list client.OrganizationEntity.t)
    (org : client.OrganizationEntity.t) :
  last_organization_ID (orgs ++ [org]) = client.OrganizationEntity.ID org.
Proof. unfold last_organization_ID. by rewrite foldl_snoc. Qed.

Lemma HasError_not_found (respDiags : Diagnostics) (kind name : string) :
  HasError (not_found respDiags kind name) = true.
Proof. apply HasError_AddError. Qed.

(** X16.  [TeamDataSource.Read] either gets to [resp.State.Set] or leaves an
    error in [resp.Diagnostics].  In the first case the state holds the
    organization and the name of the configuration, and
    [resp.Diagnostics] are extended by the diagnostics of
    [resp.State.Set] alone. *)
Theorem TeamDataSource_Read_outcome (env : environment)
    (config : TeamDataSourceModel.t) (respDiags : Diagnostics)
    (st : option TeamDataSourceModel.t) (diags : Diagnostics) :
  TeamDataSource_Read env config respDiags = Return (st, diags) →
  match st with
  | None => HasError diags = true
  | Some state =>
      diags = Append respDiags (TeamState_Set env state) ∧
      TeamDataSourceModel.Organization state
      = TeamDataSourceModel.Organization config ∧
      TeamDataSourceModel.Name state = TeamDataSourceModel.Name config
  end.
Proof.
  unfold TeamDataSource_Read, ReadDataFromApi.
  destruct (NewRequest env _); [|done]. destruct (Do env _) as [body|]; [|done].
  destruct (UnmarshalOrganizations env body) as [detail|orgs].
  { intros [= <- <-]. apply HasError_not_found. }
  destruct (length orgs =? 0)%nat; [intros [= <- <-]; apply HasError_not_found|].
  destruct (NewRequest env _); [|done]. destruct (Do env _) as [body'|]; [|done].
  destruct (UnmarshalTeams env body') as [detail|teams].
  { intros [= <- <-]. apply HasError_not_found. }
  destruct (length teams =? 0)%nat; [intros [= <- <-]; apply HasError_not_found|].
  intros [= <- <-]. split; [done|]. apply foldl_team_body.
Qed.

Lemma TeamDataSource_Read_outcome_witness :
  HasError
    (not_found
       (AddError [] "Unable to unmarshal payload" (Text "unexpected EOF"))
       "Organization" "acme") = true.
Proof.
  apply (TeamDataSource_Read_outcome (example_env (inl "unexpected EOF") example_histories)
           example_team_config [] None).
  vm_compute. reflexivity.
Defined.

(** X17.  Where the API answers with organizations and teams,
    [TeamDataSource.Read] asks for the teams under the ID of the last
    organization of the first answer, and the state it sets is the one
    that the last team alone gives: the organizations and teams before the
    last leave no trace. *)
Theorem TeamDataSource_Read_last (env : environment)
    (config : TeamDataSourceModel.t) (respDiags : Diagnostics)
    (body body' : string)
    (orgs : list client.OrganizationEntity.t) (org : client.OrganizationEntity.t)
    (teams : list client.TeamEntity.t) (team : client.TeamEntity.t) :
  let url := organization_url env (TeamDataSourceModel.Organization config) in
  let url' := team_url env (client.OrganizationEntity.ID org)
                (ValueString (TeamDataSourceModel.Name config)) in
  NewRequest env url = true → Do env url = Some body →
  UnmarshalOrganizations env body = inr (orgs ++ [org])%list →
  NewRequest env url' = true → Do env url' = Some body' →
  UnmarshalTeams env body' = inr (teams ++ [team])%list →
  TeamDataSource_Read env config respDiags
  = Return (Some (team_body config team),
            Append respDiags (TeamState_Set env (team_body config team))).
Proof.
  intros url url' Hreq Hdo Horgs Hreq' Hdo' Hteams.
  unfold TeamDataSource_Read, ReadDataFromApi.
  fold url. rewrite Hreq, Hdo, Horgs, length_snoc_eqb.
  rewrite last_organization_ID_snoc. fold url'.
  rewrite Hreq', Hdo', Hteams, length_snoc_eqb.
  rewrite foldl_snoc.
  destruct (foldl_team_body config teams) as [Horg Hname].
  by rewrite (team_body_ext _ config team Horg Hname).
Qed.

Lemma TeamDataSource_Read_last_witness :
  TeamDataSource_Read (example_env example_organizations example_histories) example_team_config []
  = Return (Some (team_body example_team_config (example_team false)),
            Append [] (TeamState_Set (example_env example_organizations example_histories)
                         (team_body example_team_config (example_team false)))).
Proof.
  apply (TeamDataSource_Read_last (example_env example_organizations example_histories)
           example_team_config []
           "https://terrakube/api/v1/organization?filter[organization]=name==acme"
           "https://terrakube/api/v1/organization/o2/team?filter[team]=name==devs"
           [example_organization "o1"] (example_organization "o2")
           [example_team true] (example_team false));
    reflexivity.
Defined.

Lemma foldl_workspace_organization_body (state : WorkspaceDataSourceModel.t)
    (orgs : list client.OrganizationEntity.t) :
  WorkspaceDataSourceModel.Name (foldl workspace_organization_body state orgs)
  = WorkspaceDataSourceModel.Name state ∧
  WorkspaceDataSourceModel.Organization
    (foldl workspace_organization_body state orgs)
  = WorkspaceDataSourceModel.Organization state ∧
  WorkspaceDataSourceModel.VCSID (foldl workspace_organization_body state orgs)
  = WorkspaceDataSourceModel.VCSID state.
Proof.
  revert state. induction orgs as [|data orgs IH]; intros state; [done|].
  simpl. by destruct (IH (workspace_organization_body state data)) as (-> & -> & ->).
Qed.

Lemma last_VCSID_snoc (VCSID : attr_Value)
    (workspaces : list client.WorkspaceEntity.t) (data : client.WorkspaceEntity.t) :
  last_VCSID VCSID (workspaces ++ [data])
  = match client.WorkspaceEntity.Vcs data with
    | Some vcs => types.StringValue (client.VcsEntity.ID vcs)
    | None => last_VCSID VCSID workspaces
    end.
Proof.
  unfold last_VCSID. rewrite omap_app. simpl.
  destruct (client.WorkspaceEntity.Vcs data) as [vcs|]; simpl.
  - by rewrite last_snoc.
  - by rewrite app_nil_r.
Qed.

Lemma foldl_workspace_body (state : WorkspaceDataSourceModel.t)
    (workspaces : list client.WorkspaceEntity.t) :
  WorkspaceDataSourceModel.Name (foldl workspace_body state workspaces)
  = WorkspaceDataSourceModel.Name state ∧
  WorkspaceDataSourceModel.Organization (foldl workspace_body state workspaces)
  = WorkspaceDataSourceModel.Organization state ∧
  WorkspaceDataSourceModel.OrganizationID (foldl workspace_body state workspaces)
  = WorkspaceDataSourceModel.OrganizationID state ∧
  WorkspaceDataSourceModel.VCSID (foldl workspace_body state workspaces)
  = last_VCSID (WorkspaceDataSourceModel.VCSID state) workspaces.
Proof.
  induction workspaces as [|data workspaces IH] using rev_ind; [done|].
  rewrite foldl_snoc, last_VCSID_snoc. destruct IH as (IH1 & IH2 & IH3 & IH4).
  simpl. by rewrite IH4.
Qed.

(** X18.  [WorkspaceDataSource.Read] either gets to [resp.State.Set], with
    the name and the organization of the configuration in the state and
    the diagnostics of [resp.State.Set] alone added to
    [resp.Diagnostics], or it returns after adding one error, and one
    only. *)
Theorem WorkspaceDataSource_Read_outcome (env : environment)
    (config : WorkspaceDataSourceModel.t) (respDiags : Diagnostics)
    (st : option WorkspaceDataSourceModel.t) (diags : Diagnostics) :
  WorkspaceDataSource_Read env config respDiags = Return (st, diags) →
  match st with
  | None =>
      HasError diags = true ∧
      ∃ summary detail, diags = AddError respDiags summary detail
  | Some state =>
      diags = Append respDiags (WorkspaceState_Set env state) ∧
      WorkspaceDataSourceModel.Name state = WorkspaceDataSourceModel.Name config ∧
      WorkspaceDataSourceModel.Organization state
      = WorkspaceDataSourceModel.Organization config
  end.
Proof.
  assert (∀ summary detail,
    HasError (AddError respDiags summary detail) = true ∧
    ∃ summary' detail',
      AddError respDiags summary detail = AddError respDiags summary' detail')
    as Hone.
  { intros summary detail. split; [apply HasError_AddError|by eexists _, _]. }
  unfold WorkspaceDataSource_Read, request, not_found.
  destruct (NewRequest env _); [|done]. destruct (Do env _) as [body|]; [|done].
  destruct (UnmarshalOrganizations env body) as [detail|orgs];
    [intros [= <- <-]; apply Hone|].
  destruct (length orgs =? 0)%nat; [intros [= <- <-]; apply Hone|].
  destruct (NewRequest env _); [|done]. destruct (Do env _) as [body'|]; [|done].
  destruct (UnmarshalWorkspaces env body') as [detail|workspaces];
    [intros [= <- <-]; apply Hone|].
  destruct (length workspaces =? 0)%nat; [intros [= <- <-]; apply Hone|].
  intros [= <- <-]. split; [done|].
  destruct (foldl_workspace_body (foldl workspace_organization_body config orgs)
    workspaces) as (-> & -> & _).
  by destruct (foldl_workspace_organization_body config orgs) as (-> & -> & _).
Qed.

Lemma WorkspaceDataSource_Read_outcome_witness :
  HasError (AddError [] "Unable to unmarshal payload" (Text "unexpected EOF"))
  = true ∧
  ∃ summary detail,
    AddError [] "Unable to unmarshal payload" (Text "unexpected EOF")
    = AddError [] summary detail.
Proof.
  apply (WorkspaceDataSource_Read_outcome (example_env (inl "unexpected EOF") example_histories)
           example_workspace_config [] None).
  vm_compute. reflexivity.
Defined.

(** X19.  Where the API answers with organizations and workspaces,
    [WorkspaceDataSource.Read] asks for the workspaces under the ID of the
    last organization, and sets a state whose fields are those of the last
    workspace, with the name and the organization of the configuration
    and the ID of the last organization; but [VCSID] is the ID of the VCS
    of the last workspace that has one, which need not be the last
    workspace, and is left as configured when no workspace has a VCS. *)
Theorem WorkspaceDataSource_Read_last (env : environment)
    (config : WorkspaceDataSourceModel.t) (respDiags : Diagnostics)
    (body body' : string)
    (orgs : list client.OrganizationEntity.t) (org : client.OrganizationEntity.t)
    (workspaces : list client.WorkspaceEntity.t)
    (workspace : client.WorkspaceEntity.t) :
  let url :=
    organization_url env (WorkspaceDataSourceModel.Organization config) in
  let url' := workspace_url env (client.OrganizationEntity.ID org)
                (ValueString (WorkspaceDataSourceModel.Name config)) in
  let state :=
    {| WorkspaceDataSourceModel.ID :=
         types.StringValue (client.WorkspaceEntity.ID workspace);
       WorkspaceDataSourceModel.Name := WorkspaceDataSourceModel.Name config;
       WorkspaceDataSourceModel.Description :=
         types.StringValue (client.WorkspaceEntity.Description workspace);
       WorkspaceDataSourceModel.Organization :=
         WorkspaceDataSourceModel.Organization config;
       WorkspaceDataSourceModel.OrganizationID :=
         types.StringValue (client.OrganizationEntity.ID org);
       WorkspaceDataSourceModel.Source :=
         types.StringValue (client.WorkspaceEntity.Source workspace);
       WorkspaceDataSourceModel.Branch :=
         types.StringValue (client.WorkspaceEntity.Branch workspace);
       WorkspaceDataSourceModel.Folder :=
         types.StringValue (client.WorkspaceEntity.Folder workspace);
       WorkspaceDataSourceModel.TemplateID :=
         types.StringValue (client.WorkspaceEntity.TemplateId workspace);
       WorkspaceDataSourceModel.IaCType :=
         types.StringValue (client.WorkspaceEntity.IaCType workspace);
       WorkspaceDataSourceModel.IaCVersion :=
         types.StringValue (client.WorkspaceEntity.IaCVersion workspace);
       WorkspaceDataSourceModel.ExecutionMode :=
         types.StringValue (client.WorkspaceEntity.ExecutionMode workspace);
       WorkspaceDataSourceModel.Deleted :=
         types.BoolValue (client.WorkspaceEntity.Deleted workspace);
       WorkspaceDataSourceModel.AllowRemoteApply :=
         types.BoolValue (client.WorkspaceEntity.AllowRemoteApply workspace);
       WorkspaceDataSourceModel.VCSID :=
         last_VCSID (WorkspaceDataSourceModel.VCSID config)
           (workspaces ++ [workspace]) |} in
  NewRequest env url = true → Do env url = Some body →
  UnmarshalOrganizations env body = inr (orgs ++ [org])%list →
  NewRequest env url' = true → Do env url' = Some body' →
  UnmarshalWorkspaces env body' = inr (workspaces ++ [workspace])%list →
  WorkspaceDataSource_Read env config respDiags
  = Return (Some state, Append respDiags (WorkspaceState_Set env state)).
Proof.
  intros url url' state Hreq Hdo Horgs Hreq' Hdo' Hworkspaces.
  unfold WorkspaceDataSource_Read, request.
  fold url. rewrite Hreq, Hdo, Horgs, length_snoc_eqb.
  rewrite foldl_snoc.
  destruct (foldl_workspace_organization_body config orgs) as (Hn & Ho & Hv).
  set (state1 := workspace_organization_body
                   (foldl workspace_organization_body config orgs) org).
  assert (workspace_url env
            (ValueString (WorkspaceDataSourceModel.OrganizationID state1))
            (ValueString (WorkspaceDataSourceModel.Name state1)) = url') as ->.
  { unfold url', state1. simpl. by rewrite Hn. }
  rewrite Hreq', Hdo', Hworkspaces, length_snoc_eqb.
  assert (foldl workspace_body state1 (workspaces ++ [workspace]) = state) as ->;
    [|done].
  rewrite foldl_snoc.
  destruct (foldl_workspace_body state1 workspaces) as (Hn' & Ho' & Hi' & Hv').
  unfold workspace_body at 1. rewrite Hn', Ho', Hi', Hv'.
  unfold state. rewrite last_VCSID_snoc. unfold state1. simpl.
  by rewrite Hn, Ho, Hv.
Qed.

Lemma WorkspaceDataSource_Read_last_witness :
  ∃ state,
    WorkspaceDataSource_Read (example_env example_organizations example_histories)
      example_workspace_config [] = Return (Some state, []) ∧
    WorkspaceDataSourceModel.ID state = types.StringValue "w3" ∧
    WorkspaceDataSourceModel.OrganizationID state = types.StringValue "o2" ∧
    WorkspaceDataSourceModel.VCSID state = types.StringValue "vcs2".
Proof.
  eexists. split.
  - apply (WorkspaceDataSource_Read_last (example_env example_organizations example_histories)
             example_workspace_config []
             "https://terrakube/api/v1/organization?filter[organization]=name==acme"
             "https://terrakube/api/v1/organization/o2/workspace?filter[workspace]=name==prod"
             [example_organization "o1"] (example_organization "o2")
             [example_workspace "w1" None;
              example_workspace "w2" (Some {| client.VcsEntity.ID := "vcs2" |})]
             (example_workspace "w3" None));
      reflexivity.
  - vm_compute. done.
Defined.

(** X20.  A payload of organizations that cannot be decoded is reported
    once by [WorkspaceDataSource.Read], which returns at once, and twice by
    [TeamDataSource.Read] and [OutputDataSource.Read]: [ReadDataFromApi]
    adds the error and returns no organization, and the caller adds that
    the organization was not found. *)
Theorem organizations_unmarshal_error (env : environment)
    (Organization Workspace : attr_Value)
    (wconfig : WorkspaceDataSourceModel.t) (tconfig : TeamDataSourceModel.t)
    (respDiags : Diagnostics) (body detail : string) :
  let url := organization_url env Organization in
  let diags := AddError respDiags "Unable to unmarshal payload" (Text detail) in
  let diags' := not_found diags "Organization" (String_ env Organization) in
  WorkspaceDataSourceModel.Organization wconfig = Organization →
  TeamDataSourceModel.Organization tconfig = Organization →
  NewRequest env url = true → Do env url = Some body →
  UnmarshalOrganizations env body = inl detail →
  WorkspaceDataSource_Read env wconfig respDiags = Return (None, diags) ∧
  TeamDataSource_Read env tconfig respDiags = Return (None, diags') ∧
  OutputDataSource_Read env Organization Workspace respDiags
  = Return (None, diags') ∧
  (respDiags = [] → length diags = 1 ∧ length diags' = 2).
Proof.
  intros url diags diags' Hw Ht Hreq Hdo Horgs.
  unfold WorkspaceDataSource_Read, TeamDataSource_Read, OutputDataSource_Read,
    request, ReadDataFromApi.
  rewrite Hw, Ht. fold url. rewrite Hreq, Hdo, Horgs. simpl.
  repeat split; by subst respDiags.
Qed.

Lemma organizations_unmarshal_error_witness :
  WorkspaceDataSource_Read (example_env (inl "unexpected EOF") example_histories)
    example_workspace_config []
  = Return (None, [NewErrorDiagnostic "Unable to unmarshal payload"
                     (Text "unexpected EOF")]) ∧
  TeamDataSource_Read (example_env (inl "unexpected EOF") example_histories) example_team_config []
  = Return (None, [NewErrorDiagnostic "Unable to unmarshal payload"
                     (Text "unexpected EOF");
                   NewErrorDiagnostic "Organization acme not found!"
                     (Text "acme")]).
Proof.
  destruct (organizations_unmarshal_error (example_env (inl "unexpected EOF") example_histories)
              (types.StringValue "acme") (types.StringValue "prod")
              example_workspace_config example_team_config []
              "https://terrakube/api/v1/organization?filter[organization]=name==acme"
              "unexpected EOF" eq_refl eq_refl eq_refl eq_refl eq_refl)
    as (Hw & Ht & _).
  split; [exact Hw|exact Ht].
Defined.

(** X21.  In [OutputDataSource.Read], a workspace without history is no
    error.  Whenever [ReadDataFromApi] returns no history, [Read] returns
    without a state and adds nothing to the diagnostics that
    [ReadDataFromApi] left: [resp.Diagnostics] as they were for an empty
    history, or with the one error of a payload that cannot be decoded,
    which is then taken for an empty history as well. *)
Theorem OutputDataSource_Read_no_history (env : environment)
    (Organization Workspace : attr_Value) (respDiags diags : Diagnostics)
    (body body' : string)
    (orgs : list client.OrganizationEntity.t) (org : client.OrganizationEntity.t)
    (workspaces : list client.WorkspaceEntity.t)
    (workspace : client.WorkspaceEntity.t) :
  let url := organization_url env Organization in
  let url' := workspace_url env (client.OrganizationEntity.ID org)
                (ValueString Workspace) in
  let url'' := history_url env (client.OrganizationEntity.ID org)
                 (client.WorkspaceEntity.ID workspace) in
  NewRequest env url = true → Do env url = Some body →
  UnmarshalOrganizations env body = inr (orgs ++ [org])%list →
  NewRequest env url' = true → Do env url' = Some body' →
  UnmarshalWorkspaces env body' = inr (workspaces ++ [workspace])%list →
  ReadDataFromApi env (UnmarshalHistories env) url'' respDiags
  = Return ([], diags) →
  OutputDataSource_Read env Organization Workspace respDiags
  = Return (None, diags) ∧
  (diags = respDiags ∨
   ∃ detail,
     diags = AddError respDiags "Unable to unmarshal payload" (Text detail)).
Proof.
  intros url url' url'' Hreq Hdo Horgs Hreq' Hdo' Hworkspaces Hhistories.
  split.
  - unfold OutputDataSource_Read.
    unfold ReadDataFromApi at 1. fold url. rewrite Hreq, Hdo, Horgs, length_snoc_eqb.
    rewrite last_organization_ID_snoc.
    unfold ReadDataFromApi at 1. fold url'.
    rewrite Hreq', Hdo', Hworkspaces, length_snoc_eqb.
    rewrite foldl_snoc. fold url''. by rewrite Hhistories.
  - unfold ReadDataFromApi in Hhistories.
    destruct (NewRequest env url''); [|done].
    destruct (Do env url'') as [body''|]; [|done].
    destruct (UnmarshalHistories env body'') as [detail|Histories].
    + injection Hhistories as <-. right. by exists detail.
    + injection Hhistories as _ <-. by left.
Qed.

Lemma OutputDataSource_Read_no_history_witness :
  OutputDataSource_Read (example_env example_organizations (inr []))
    (types.StringValue "acme") (types.StringValue "prod") []
  = Return (None, []) ∧
  ([] = @nil Diagnostic ∨
   ∃ detail, [] = AddError [] "Unable to unmarshal payload" (Text detail)).
Proof.
  apply (OutputDataSource_Read_no_history
           (example_env example_organizations (inr []))
           (types.StringValue "acme") (types.StringValue "prod") [] []
           "https://terrakube/api/v1/organization?filter[organization]=name==acme"
           "https://terrakube/api/v1/organization/o2/workspace?filter[workspace]=name==prod"
           [example_organization "o1"] (example_organization "o2")
           [example_workspace "w1" None;
            example_workspace "w2" (Some {| client.VcsEntity.ID := "vcs2" |})]
           (example_workspace "w3" None));
    reflexivity.
Defined.

(** X22.  With a network that answers every request and a decoder that
    returns decoded JSON, [OutputDataSource.Read] returns: nothing in the
    decoding of the answers, the inference and the conversions panics.
    When it gets to [resp.State.Set], [resp.Diagnostics] held no error and
    are extended by the diagnostics of [resp.State.Set] alone: the
    conversions of the outputs report nothing. *)
Theorem OutputDataSource_Read_returns (env : environment)
    (Organization Workspace : attr_Value) (respDiags : Diagnostics) :
  (∀ url, NewRequest env url = true) →
  (∀ url, is_Some (Do env url)) →
  (∀ body result, json_Unmarshal env body = Some result →
     is_json (go_map result) = true) →
  ∃ st diags,
    OutputDataSource_Read env Organization Workspace respDiags
    = Return (st, diags) ∧
    match st with
    | Some state =>
        HasError respDiags = false ∧
        diags = Append respDiags (OutputState_Set env state)
    | None => True
    end.
Proof.
  intros Hreq Hdo Hjson. unfold OutputDataSource_Read, ReadDataFromApi.
  rewrite !Hreq. destruct (Hdo (organization_url env Organization)) as [body ->].
  destruct (UnmarshalOrganizations env body) as [detail|orgs];
    [by eexists None, _|].
  destruct (length orgs =? 0)%nat; [by eexists None, _|].
  rewrite !Hreq.
  destruct (Hdo (workspace_url env (last_organization_ID orgs)
                   (ValueString Workspace))) as [body' ->].
  destruct (UnmarshalWorkspaces env body') as [detail|workspaces];
    [by eexists None, _|].
  destruct (length workspaces =? 0)%nat; [by eexists None, _|].
  rewrite !Hreq.
  match goal with |- context [Do env ?u] => destruct (Hdo u) as [body'' ->] end.
  destruct (UnmarshalHistories env body'') as [detail|[|data Histories]];
    try by eexists None, _.
  rewrite Hreq.
  destruct (Hdo (client.HistoryEntity.Output data)) as [bodyFile ->].
  destruct (json_Unmarshal env bodyFile) as [result|] eqn:Hresult;
    [|by eexists None, _].
  destruct (Read_result_decoded result respDiags (Hjson _ _ Hresult))
    as (st & -> & Hst).
  destruct st as [state|]; [|by eexists None, _].
  eexists (Some state), _. split; [done|]. split; [|done].
  by apply Hst.
Qed.

Lemma OutputDataSource_Read_returns_witness :
  ∃ st diags,
    OutputDataSource_Read (example_env example_organizations example_histories)
      (types.StringValue "acme") (types.StringValue "prod") []
    = Return (st, diags) ∧
    match st with
    | Some state =>
        HasError [] = false ∧
        diags = Append [] (OutputState_Set
                             (example_env example_organizations example_histories)
                             state)
    | None => True
    end.
Proof.
  apply OutputDataSource_Read_returns.
  - intros url. reflexivity.
  - intros url. exists url. reflexivity.
  - intros body result [= <-]. vm_compute. reflexivity.
Defined.

(** ** Known lists and tuples, and outputs without a value *)

Section collect_done.
Context {A : Type} (g : A → outcome (attr_Value * Diagnostics)).

(** What the loop of the [ListType] case has collected at its end. *)
Lemma range_from_collect_inv (l : list A) (i : nat)
    (elems : list attr_Value) (diags : Diagnostics) :
  match range_from (R:=outcome (attr_Value * Diagnostics))
          (λ _ a '(elems, diags),
             match g a with
             | Panic => Exit Panic
             | Return (v, ds) => Next ((elems ++ [v])%list, Append diags ds)
             end) i l (elems, diags) with
  | Done (elems', _) =>
      ∃ vals, elems' = (elems ++ vals)%list ∧
        Forall2 (λ a v, ∃ ds, g a = Return (v, ds)) l vals
  | Left r => r = Panic
  end.
Proof.
  revert i elems diags.
  induction l as [|a l IH]; intros i elems diags.
  - exists []. split; [by rewrite app_nil_r|constructor].
  - simpl. destruct (g a) as [|[v ds]] eqn:Hg; [done|].
    specialize (IH (S i) (elems ++ [v])%list (Append diags ds)).
    destruct (range_from _ (S i) l _) as [[elems' diags']|r]; [|done].
    destruct IH as (vals & -> & Hvals). exists (v :: vals).
    split; [by rewrite <- app_assoc|]. constructor; [by exists ds|done].
Qed.
End collect_done.

Lemma TupleValue_known_inv (elementTypes : list attr_Type)
    (elements : list attr_Value) (v : attr_Value) (ds : Diagnostics) :
  types.TupleValue elementTypes elements = Return (v, ds) →
  basetypes.state v = Some ValueStateKnown →
  Forall2 (λ element t, basetypes.Type_ element = Return t) elements elementTypes.
Proof.
  intros Hv Hknown.
  destruct (TupleValue_cases _ _ _ _ Hv) as [[-> ->]|[-> _]]; [|done].
  revert Hv. unfold types.TupleValue.
  destruct (negb (length elementTypes =? length elements)%nat) eqn:Hlen.
  { match goal with |- context [range_from ?f 0 elements []] =>
      pose proof (range_from_left f (λ r, r = Panic) elements 0 []) as H
    end.
    destruct (range_from _ 0 elements []); [by intros [=]|].
    rewrite H; [done|]. intros i a s'. by destruct (basetypes.Type_ a). }
  apply negb_false_iff, Nat.eqb_eq in Hlen.
  match goal with |- context [range_from2 ?f Panic 0 elements elementTypes []] =>
    assert (∀ i acc,
      match range_from2 f Panic i elements elementTypes acc with
      | Done cd =>
          HasError cd = false →
          HasError acc = false ∧
          Forall2 (λ element t, basetypes.Type_ element = Return t)
            elements elementTypes
      | Left r => r = Panic
      end) as Hloop
  end.
  { clear Hknown. revert elements Hlen.
    induction elementTypes as [|t ts IH]; intros [|element elements] Hlen i acc;
      simpl in *; try done.
    injection Hlen as Hlen.
    destruct (basetypes.Type_ element) as [|ty] eqn:Hty; [done|].
    destruct (Equal t ty) eqn:Heq.
    - apply Equal_spec in Heq as <-. specialize (IH elements Hlen (S i) acc).
      destruct (range_from2 _ Panic (S i) elements ts acc); [|done].
      intros Hcd. destruct (IH Hcd). split; [done|]. by constructor.
    - specialize (IH elements Hlen (S i)
        (AddError acc "Invalid Tuple Element" (TupleElementType i t ty))).
      destruct (range_from2 _ Panic (S i) elements ts _) as [cd|]; [|done].
      intros Hcd. destruct (IH Hcd) as [Hacc _].
      by rewrite HasError_AddError in Hacc. }
  specialize (Hloop 0 []).
  destruct (range_from2 _ Panic 0 elements elementTypes []) as [cd|r]; simpl;
    [|by subst r].
  destruct (HasError cd); intros [=]. by apply Hloop.
Qed.

(** X23.  Whatever the target type, the conversion of a slice returns a
    known value only in three ways.  Against a list type: the list of the
    values that the conversions of the elements returned, one for each
    element and in their order, each of the element type.  Against a tuple
    type: the tuple of those values, each of the type at its index.
    Against a map type: the empty map.  Against any other type the result
    is not known. *)
Theorem convert_slice_known (slice : list interface) (t : attr_Type)
    (v : attr_Value) (ds : Diagnostics) :
  convertToAttrValue (go_slice slice) t = Return (v, ds) →
  basetypes.state v = Some ValueStateKnown →
  match t with
  | ListType ElemType =>
      ∃ vals, v = basetypes.ListValue vals ElemType ValueStateKnown ∧
        Forall2 (λ elem val,
          (∃ ds', convertToAttrValue elem ElemType = Return (val, ds')) ∧
          basetypes.Type_ val = Return ElemType) slice vals
  | TupleType ElemTypes =>
      ∃ vals, v = basetypes.TupleValue vals ElemTypes ValueStateKnown ∧
        Forall3 (λ elem ElemType val,
          (∃ ds', convertToAttrValue elem ElemType = Return (val, ds')) ∧
          basetypes.Type_ val = Return ElemType) slice ElemTypes vals
  | MapType ElemType => v = basetypes.MapValue ∅ ElemType ValueStateKnown
  | _ => False
  end.
Proof.
  destruct t as [| | | |ElemType|ElemTypes|AttrTypes|ElemType|T];
    try (by intros [= <- <-]).
  - rewrite convertToAttrValue_list.
    pose proof (range_from_collect_inv (λ a, convertToAttrValue a ElemType)
      slice 0 [] []) as Hloop.
    destruct (range_from _ 0 slice ([], [])) as [[elems diags]|r]; [|by subst r].
    destruct Hloop as (vals & -> & Hvals). simpl. intros Hv Hknown.
    pose proof (ListValue_known_inv _ _ _ _ Hv Hknown) as Htyped.
    destruct (ListValue_cases _ _ _ _ Hv) as [[-> ->]|[-> _]]; [|done].
    exists vals. split; [done|]. clear Hv Hknown.
    induction Hvals as [|elem val slice vals Hc _ IH]; [constructor|].
    apply Forall_cons in Htyped as [Hval Htyped]. constructor; by auto.
  - rewrite convertToAttrValue_tuple.
    destruct (negb (length slice =? length ElemTypes)%nat) eqn:Hlen;
      [by intros [= <- <-]|].
    apply negb_false_iff, Nat.eqb_eq in Hlen.
    pose proof (range_from2_collect_inv convertToAttrValue slice ElemTypes 0 [] []
      Hlen) as Hloop.
    destruct (range_from2 _ Panic 0 slice ElemTypes ([], []))
      as [[elems diags]|r]; [|by subst r].
    destruct Hloop as (vals & -> & Hvals). simpl. intros Hv Hknown.
    pose proof (TupleValue_known_inv _ _ _ _ Hv Hknown) as Htyped.
    destruct (TupleValue_cases _ _ _ _ Hv) as [[-> ->]|[-> _]]; [|done].
    exists vals. split; [done|]. clear Hv Hknown Hlen.
    induction Hvals as [|elem ty val slice ts vals Hc _ IH]; [constructor|].
    apply Forall2_cons in Htyped as [Hval Htyped]. constructor; by auto.
Qed.

Lemma convert_slice_known_witness :
  ∃ vals,
    basetypes.TupleValue [types.NumberValue 1%Qc; types.StringNull]
      [NumberType; StringType] ValueStateKnown
    = basetypes.TupleValue vals [NumberType; StringType] ValueStateKnown ∧
    Forall3 (λ elem ElemType val,
      (∃ ds', convertToAttrValue elem ElemType = Return (val, ds')) ∧
      basetypes.Type_ val = Return ElemType)
      [go_num Float64 1%Qc; go_nil] [NumberType; StringType] vals.
Proof.
  apply (convert_slice_known [go_num Float64 1%Qc; go_nil]
           (TupleType [NumberType; StringType]) _ []).
  - reflexivity.
  - reflexivity.
Defined.

(** X24.  An output record without a ["value"] key, or with a null value,
    is entered by the walk of [Read] as a null string: under its name the
    walk keeps the string type and [types.StringNull]. *)
Theorem walk_output_without_value (outputs : gmap string interface)
    (x : string) (myOutput : gmap string interface) :
  map_Forall (λ _ output, is_map output = true) outputs →
  outputs !! x = Some (go_map myOutput) →
  index myOutput "value" = go_nil →
  ∃ p, walk_outputs outputs = Done p ∧
       sensitiveTypes p !! x = Some (Some StringType) ∧
       sensitiveValues p !! x = Some types.StringNull.
Proof.
  intros Hmaps Hx Hvalue.
  destruct (walk_outputs_spec outputs Hmaps) as (p & Hwalk & Hp).
  exists p. split; [done|]. destruct (Hp x) as (-> & -> & _).
  rewrite Hx. simpl. unfold output_converted, output_type, output_value. simpl.
  by rewrite Hvalue.
Qed.

Lemma walk_output_without_value_witness :
  ∃ p, walk_outputs (<["x" := go_map (<["sensitive" := go_bool true]> ∅)]> ∅)
       = Done p ∧
       sensitiveTypes p !! "x" = Some (Some StringType) ∧
       sensitiveValues p !! "x" = Some types.StringNull.
Proof.
  apply (walk_output_without_value
           (<["x" := go_map (<["sensitive" := go_bool true]> ∅)]> ∅) "x"
           (<["sensitive" := go_bool true]> ∅)).
  - intros k o. rewrite lookup_insert. case_decide; [|by rewrite lookup_empty].
    by intros [= <-].
  - vm_compute. reflexivity.
  - vm_compute. reflexivity.
Defined.
